(** * glyph: the console data provider of the font manager

    A shallow embedding of [src/page.ts], class [GlyphProvider], and the
    properties of its four private operations: [listFonts], [deleteFont],
    [uploadFont] and [loadFontOnDemand].

    The operations run on three things that are not theirs, each modelled
    on its own:
    - JavaScript strings and the POSIX flavour of Node's [path] module
      ([extname], [basename], [resolve]), module [JS], [NodePath], [Resolve];
    - [node:fs/promises] ([readdir], [stat], [unlink], [writeFile]) over a
      file system whose every call can fail, module [FS];
    - the font service of [./index], reached through [fontRoot],
      [getFontInfo] and [loadSingleFont]: a parameter, class [FontsService].

    An operation is a function from the world (file system, cache, log) to
    a result, returned or thrown, and the world it leaves. *)

From Stdlib Require Import String Ascii List ZArith Lia Bool Arith.
From Stdlib.Strings Require Byte.
Import ListNotations.

Local Open Scope string_scope.
Local Open Scope list_scope.

(** ** JavaScript strings

    A string is its sequence of code units; the model covers the code units
    below 256 (Latin-1), one [ascii] each. *)

Module JS.

Definition charCode (c : ascii) : Z := Z.of_N (N_of_ascii c).

(** [s.charCodeAt(i)], for an index inside the string. *)
Definition charCodeAt (s : string) (i : Z) : Z :=
  match String.get (Z.to_nat i) s with
  | Some c => charCode c
  | None => -1
  end.

Definition len (s : string) : Z := Z.of_nat (String.length s).

(** [s.slice(a, b)]: a negative index counts from the end of the string. *)
Definition relIndex (n i : Z) : Z :=
  if (i <? 0)%Z then Z.max (n + i) 0 else Z.min i n.

Definition slice (s : string) (a b : Z) : string :=
  let from := relIndex (len s) a in
  let to := relIndex (len s) b in
  substring (Z.to_nat from) (Z.to_nat (to - from)) s.

(** [s.slice(a)] *)
Definition sliceFrom (s : string) (a : Z) : string := slice s a (len s).

(** Unicode lower-casing restricted to Latin-1: [A-Z] and the accented
    capitals U+00C0..U+00DE (U+00D7, the multiplication sign, apart). *)
Definition lowerChar (c : ascii) : ascii :=
  let n := N_of_ascii c in
  if ((65 <=? n) && (n <=? 90))%N then ascii_of_N (n + 32)
  else if ((192 <=? n) && (n <=? 222) && negb (n =? 215))%N then ascii_of_N (n + 32)
  else c.

Fixpoint toLowerCase (s : string) : string :=
  match s with
  | EmptyString => EmptyString
  | String c s' => String (lowerChar c) (toLowerCase s')
  end.

(** [arr.includes(x)] on an array of strings. *)
Definition includes (arr : list string) (x : string) : bool :=
  existsb (String.eqb x) arr.

(** Truthiness of a [string | undefined] value: the empty string is falsy. *)
Definition truthy (v : option string) : bool :=
  match v with
  | Some s => negb (String.eqb s "")
  | None => false
  end.

End JS.

(** ** [node:path], POSIX flavour

    [extname] and [basename] scan the path from its last code unit to its
    first, as Node's implementation does; the loop counter [n] is [i + 1]. *)

Module NodePath.

Definition CHAR_FORWARD_SLASH : Z := 47.
Definition CHAR_DOT : Z := 46.

Record ExtScan := {
  startDot : Z;
  startPart : Z;
  extEnd : Z;
  extMatchedSlash : bool;
  preDotState : Z
}.

Fixpoint extname_scan (path : string) (n : nat) (st : ExtScan) : ExtScan :=
  match n with
  | O => st
  | S n' =>
      let i := Z.of_nat n' in
      let code := JS.charCodeAt path i in
      if (code =? CHAR_FORWARD_SLASH)%Z then
        if negb (extMatchedSlash st) then
          (* a separator that is not part of the trailing ones: stop *)
          {| startDot := startDot st; startPart := i + 1; extEnd := extEnd st;
             extMatchedSlash := extMatchedSlash st; preDotState := preDotState st |}
        else extname_scan path n' st
      else
        let st1 :=
          if (extEnd st =? -1)%Z then
            {| startDot := startDot st; startPart := startPart st; extEnd := i + 1;
               extMatchedSlash := false; preDotState := preDotState st |}
          else st in
        let st2 :=
          if (code =? CHAR_DOT)%Z then
            if (startDot st1 =? -1)%Z then
              {| startDot := i; startPart := startPart st1; extEnd := extEnd st1;
                 extMatchedSlash := extMatchedSlash st1; preDotState := preDotState st1 |}
            else if negb (preDotState st1 =? 1)%Z then
              {| startDot := startDot st1; startPart := startPart st1; extEnd := extEnd st1;
                 extMatchedSlash := extMatchedSlash st1; preDotState := 1 |}
            else st1
          else if negb (startDot st1 =? -1)%Z then
            {| startDot := startDot st1; startPart := startPart st1; extEnd := extEnd st1;
               extMatchedSlash := extMatchedSlash st1; preDotState := -1 |}
          else st1 in
        extname_scan path n' st2
  end.

Definition extname (path : string) : string :=
  let st := extname_scan path (String.length path)
              {| startDot := -1; startPart := 0; extEnd := -1;
                 extMatchedSlash := true; preDotState := 0 |} in
  if ((startDot st =? -1) || (extEnd st =? -1) || (preDotState st =? 0)
      || ((preDotState st =? 1) && (startDot st =? extEnd st - 1)
          && (startDot st =? startPart st + 1)))%Z
  then ""
  else JS.slice path (startDot st) (extEnd st).

Record BaseScan := {
  start : Z;
  baseEnd : Z;
  matchedSlash : bool;
  extIdx : Z;
  firstNonSlashEnd : Z
}.

(** The loop of [basename(path, suffix)] for a suffix that is not empty and
    not longer than the path. *)
Fixpoint basename_suffix_scan (path suffix : string) (n : nat) (st : BaseScan) : BaseScan :=
  match n with
  | O => st
  | S n' =>
      let i := Z.of_nat n' in
      let code := JS.charCodeAt path i in
      if (code =? CHAR_FORWARD_SLASH)%Z then
        if negb (matchedSlash st) then
          {| start := i + 1; baseEnd := baseEnd st; matchedSlash := matchedSlash st;
             extIdx := extIdx st; firstNonSlashEnd := firstNonSlashEnd st |}
        else basename_suffix_scan path suffix n' st
      else
        let st1 :=
          if (firstNonSlashEnd st =? -1)%Z then
            {| start := start st; baseEnd := baseEnd st; matchedSlash := false;
               extIdx := extIdx st; firstNonSlashEnd := i + 1 |}
          else st in
        let st2 :=
          if (0 <=? extIdx st1)%Z then
            if (code =? JS.charCodeAt suffix (extIdx st1))%Z then
              if (extIdx st1 - 1 =? -1)%Z then
                (* the whole suffix matched: the component ends here *)
                {| start := start st1; baseEnd := i; matchedSlash := matchedSlash st1;
                   extIdx := extIdx st1 - 1; firstNonSlashEnd := firstNonSlashEnd st1 |}
              else
                {| start := start st1; baseEnd := baseEnd st1; matchedSlash := matchedSlash st1;
                   extIdx := extIdx st1 - 1; firstNonSlashEnd := firstNonSlashEnd st1 |}
            else
              (* no match: the result is the whole component *)
              {| start := start st1; baseEnd := firstNonSlashEnd st1;
                 matchedSlash := matchedSlash st1;
                 extIdx := -1; firstNonSlashEnd := firstNonSlashEnd st1 |}
          else st1 in
        basename_suffix_scan path suffix n' st2
  end.

(** The loop of [basename(path)]. *)
Fixpoint basename_plain_scan (path : string) (n : nat) (st : BaseScan) : BaseScan :=
  match n with
  | O => st
  | S n' =>
      let i := Z.of_nat n' in
      if (JS.charCodeAt path i =? CHAR_FORWARD_SLASH)%Z then
        if negb (matchedSlash st) then
          {| start := i + 1; baseEnd := baseEnd st; matchedSlash := matchedSlash st;
             extIdx := extIdx st; firstNonSlashEnd := firstNonSlashEnd st |}
        else basename_plain_scan path n' st
      else if (baseEnd st =? -1)%Z then
        basename_plain_scan path n'
          {| start := start st; baseEnd := i + 1; matchedSlash := false;
             extIdx := extIdx st; firstNonSlashEnd := firstNonSlashEnd st |}
      else basename_plain_scan path n' st
  end.

Definition basename (path suffix : string) : string :=
  let init := {| start := 0; baseEnd := -1; matchedSlash := true;
                 extIdx := JS.len suffix - 1; firstNonSlashEnd := -1 |} in
  if ((0 <? JS.len suffix) && (JS.len suffix <=? JS.len path))%Z then
    if String.eqb suffix path then ""
    else
      let st := basename_suffix_scan path suffix (String.length path) init in
      let e :=
        if (start st =? baseEnd st)%Z then firstNonSlashEnd st
        else if (baseEnd st =? -1)%Z then JS.len path
        else baseEnd st in
      JS.slice path (start st) e
  else
    let st := basename_plain_scan path (String.length path) init in
    if (baseEnd st =? -1)%Z then "" else JS.slice path (start st) (baseEnd st).

(** Paths with the extension and the base name that Node documents and
    tests for them. *)
Definition extnameCases : list (string * string) :=
  [("", ""); ("/path/to/file", ""); ("/path/to/file.ext", ".ext");
   ("/path.to/file.ext", ".ext"); ("/path.to/file", ""); ("/path.to/.file", "");
   ("/path.to/.file.ext", ".ext"); ("/path/to/f.ext", ".ext"); ("/path/to/..ext", ".ext");
   ("/path/to/..", ""); ("file", ""); ("file.ext", ".ext"); (".file", "");
   (".file.ext", ".ext"); ("/file", ""); ("/file.ext", ".ext"); ("/.file", "");
   ("/.file.ext", ".ext"); (".path/file.ext", ".ext"); ("file.ext.ext", ".ext");
   ("file.", "."); (".", ""); ("./", ""); (".file.", "."); (".file..", ".");
   ("..", ""); ("../", ""); ("..file.ext", ".ext"); ("..file", ".file");
   ("..file.", "."); ("..file..", "."); ("...", "."); ("...ext", ".ext"); ("....", ".");
   ("file.ext/", ".ext"); ("file.ext//", ".ext"); ("file/", ""); ("file//", "");
   ("file./", "."); ("file.//", "."); ("index.coffee.md", ".md"); ("Arial.TTF", ".TTF")].

Definition basenameCases : list (string * string * string) :=
  [(".js", ".js", ""); ("js", ".js", "js"); ("file.js", ".ts", "file.js");
   ("file", ".js", "file"); ("file.js.old", ".js.old", "file"); ("", "", "");
   ("/dir/basename.ext", "", "basename.ext"); ("/basename.ext", "", "basename.ext");
   ("basename.ext", "", "basename.ext"); ("basename.ext/", "", "basename.ext");
   ("basename.ext//", "", "basename.ext"); ("aaa/bbb", "/bbb", "bbb");
   ("aaa/bbb", "a/bbb", "bbb"); ("aaa/bbb", "bbb", "bbb"); ("aaa/bbb//", "bbb", "bbb");
   ("aaa/bbb", "bb", "b"); ("aaa/bbb", "b", "bb"); ("/aaa/bbb", "/bbb", "bbb");
   ("/aaa/bbb", "a/bbb", "bbb"); ("/aaa/bbb", "bbb", "bbb"); ("/aaa/bbb//", "bbb", "bbb");
   ("/aaa/bbb", "bb", "b"); ("/aaa/bbb", "b", "bb"); ("/aaa/bbb", "", "bbb");
   ("/aaa/", "", "aaa"); ("/aaa/b", "", "b"); ("/a/b", "", "b"); ("//a", "", "a");
   ("a", "a", ""); ("/foo/bar/baz/asdf/quux.html", ".html", "quux");
   ("arial.ttf", ".ttf", "arial"); ("Arial.TTF", ".ttf", "Arial.TTF");
   ("Arial.TTF", ".TTF", "Arial"); ("a.Ttf", ".ttf", "a.Ttf"); ("..ttf", ".ttf", ".")].

End NodePath.

Import NodePath.

(** ** The upload payload

    [base64Data.match(/^data:([^;]+);base64,(.+)$/)]: the result holds the two
    capture groups. [[^;]+] is greedy and the text that follows it starts with
    [;], so the first group is the whole run of code units up to the first
    [;]; [.] matches every code unit but a line terminator. *)

Module Payload.

Fixpoint stripPrefix (p s : string) : option string :=
  match p, s with
  | EmptyString, _ => Some s
  | String a p', String b s' => if Ascii.eqb a b then stripPrefix p' s' else None
  | String _ _, EmptyString => None
  end.

(** The longest prefix free of [c], and what follows it. *)
Fixpoint spanNot (c : ascii) (s : string) : string * string :=
  match s with
  | EmptyString => (EmptyString, EmptyString)
  | String a s' =>
      if Ascii.eqb a c then (EmptyString, s)
      else let (m, r) := spanNot c s' in (String a m, r)
  end.

Fixpoint anyChar (f : ascii -> bool) (s : string) : bool :=
  match s with
  | EmptyString => false
  | String a s' => f a || anyChar f s'
  end.

(** Line feed and carriage return (U+2028 and U+2029 lie outside Latin-1). *)
Definition isLineTerminator (c : ascii) : bool :=
  let n := N_of_ascii c in ((n =? 10) || (n =? 13))%N.

Definition isEmpty (s : string) : bool :=
  match s with EmptyString => true | _ => false end.

Definition match_data_url (base64Data : string) : option (string * string) :=
  match stripPrefix "data:" base64Data with
  | None => None
  | Some r =>
      let (mime, r1) := spanNot ";" r in
      if isEmpty mime then None
      else
        match stripPrefix ";base64," r1 with
        | None => None
        | Some body =>
            if isEmpty body || anyChar isLineTerminator body then None
            else Some (mime, body)
        end
  end.

(** The language of the regular expression, stated on its own. *)
Definition data_url_pattern (s : string) : Prop :=
  exists mime body,
    s = ("data:" ++ mime ++ ";base64," ++ body)%string
    /\ mime <> "" /\ anyChar (Ascii.eqb ";") mime = false
    /\ body <> "" /\ anyChar isLineTerminator body = false.

(** [Buffer.from(text, 'base64')]: code units outside the alphabet are
    skipped, the URL-safe [-] and [_] are accepted, decoding stops at the
    first [=], and an incomplete last group yields the bytes it determines.
    It never throws. *)
Definition unbase64 (c : ascii) : option N :=
  let n := N_of_ascii c in
  if ((65 <=? n) && (n <=? 90))%N then Some (n - 65)%N
  else if ((97 <=? n) && (n <=? 122))%N then Some (n - 97 + 26)%N
  else if ((48 <=? n) && (n <=? 57))%N then Some (n - 48 + 52)%N
  else if ((n =? 43) || (n =? 45))%N then Some 62%N
  else if ((n =? 47) || (n =? 95))%N then Some 63%N
  else None.

Fixpoint sextets (s : string) : list N :=
  match s with
  | EmptyString => []
  | String c s' =>
      if (N_of_ascii c =? 61)%N then []
      else match unbase64 c with
           | Some v => v :: sextets s'
           | None => sextets s'
           end
  end.

Definition byteOf (n : N) : Byte.byte :=
  match Byte.of_N (n mod 256) with
  | Some b => b
  | None => Byte.x00
  end.

Fixpoint octets (l : list N) : list Byte.byte :=
  match l with
  | a :: b :: c :: d :: rest =>
      byteOf (N.lor (N.shiftl a 2) (N.shiftr b 4))
      :: byteOf (N.lor (N.shiftl (N.land b 15) 4) (N.shiftr c 2))
      :: byteOf (N.lor (N.shiftl (N.land c 3) 6) d)
      :: octets rest
  | [a; b; c] =>
      [byteOf (N.lor (N.shiftl a 2) (N.shiftr b 4));
       byteOf (N.lor (N.shiftl (N.land b 15) 4) (N.shiftr c 2))]
  | [a; b] => [byteOf (N.lor (N.shiftl a 2) (N.shiftr b 4))]
  | _ => []
  end.

Definition Buffer_from_base64 (text : string) : list Byte.byte :=
  octets (sextets text).

End Payload.

Import Payload.

(** ** Errors and results

    What a rejected promise or a [throw] carries. *)

Inductive Errno := EACCES | ENOENT | ENOTDIR | EISDIR | ENAMETOOLONG.
Inductive Syscall := Sscandir | Sstat | Sunlink | Sopen.

(** An absolute path, one string per component below [/]. *)
Definition Path := list string.

Inductive Error :=
| UnsupportedFormatError (ext : string)      (* new Error('unsupported font format: ' + ext) *)
| InvalidEncodingError                        (* new Error('invalid base64 data format') *)
| IOError (code : Errno) (syscall : Syscall) (path : Path)
| InvalidArgValueError (path : Path)          (* ERR_INVALID_ARG_VALUE: a null byte in the path *)
| ServiceError (detail : string).             (* whatever the font service rejects with *)

Inductive Result (A : Type) :=
| Ok (value : A)
| Throw (err : Error).

Arguments Ok {A} value.
Arguments Throw {A} err.

Definition isOk {A} (r : Result A) : bool :=
  match r with Ok _ => true | Throw _ => false end.

(** ** [path.resolve] *)

Module Resolve.

Fixpoint split (s : string) : list string :=
  match s with
  | EmptyString => [EmptyString]
  | String c s' =>
      if Ascii.eqb c "/" then EmptyString :: split s'
      else match split s' with
           | h :: t => String c h :: t
           | [] => [String c EmptyString]
           end
  end.

Definition isAbsolute (s : string) : bool :=
  match s with
  | String c _ => Ascii.eqb c "/"
  | EmptyString => false
  end.

(** One component against the components kept so far (last one first):
    empty components and [.] are dropped, [..] drops the component before it
    and stays at the root when there is none. *)
Definition normalizeStep (kept : list string) (seg : string) : list string :=
  if String.eqb seg "" || String.eqb seg "." then kept
  else if String.eqb seg ".." then tl kept
  else seg :: kept.

Definition normalize (segs : list string) : Path :=
  rev (fold_left normalizeStep segs []).

(** The arguments are taken from the last to the first until one is
    absolute; empty arguments are skipped; the working directory stands
    before the first argument. *)
Fixpoint segments (cwd : Path) (argsFromLast : list string) : list string :=
  match argsFromLast with
  | [] => cwd
  | a :: rest =>
      if isEmpty a then segments cwd rest
      else if isAbsolute a then split a
      else segments cwd rest ++ split a
  end.

Definition resolve (cwd : Path) (args : list string) : Path :=
  normalize (segments cwd (rev args)).

(** The name of a directory entry: not empty, not [.] or [..], no [/]. *)
Definition validName (n : string) : bool :=
  negb (String.eqb n "") && negb (String.eqb n ".") && negb (String.eqb n "..")
  && negb (anyChar (Ascii.eqb "/") n).

End Resolve.

Import Resolve.

(** ** [node:fs/promises] over a model of the file system

    The nodes are kept in enumeration order. [denied] lists the calls that
    the system refuses whatever the node is (permissions), so that every
    call can fail on every path. *)

Module FS.

Inductive Node :=
| File (content : list Byte.byte)
| Dir.

Record Stats := {
  isDirectory : bool;
  size : nat
}.

Definition syscall_eqb (a b : Syscall) : bool :=
  match a, b with
  | Sscandir, Sscandir | Sstat, Sstat | Sunlink, Sunlink | Sopen, Sopen => true
  | _, _ => false
  end.

Fixpoint path_eqb (p q : Path) : bool :=
  match p, q with
  | [], [] => true
  | a :: p', b :: q' => String.eqb a b && path_eqb p' q'
  | _, _ => false
  end.

Record t := {
  cwd : Path;
  nodes : list (Path * Node);
  denied : list (Syscall * Path)
}.

Definition isDenied (fs : t) (call : Syscall) (p : Path) : bool :=
  existsb (fun '(c, q) => syscall_eqb c call && path_eqb q p) (denied fs).

Fixpoint lookup (p : Path) (l : list (Path * Node)) : option Node :=
  match l with
  | [] => None
  | (q, n) :: l' => if path_eqb q p then Some n else lookup p l'
  end.

(** The root directory always exists. *)
Definition nodeAt (fs : t) (p : Path) : option Node :=
  match p with
  | [] => Some Dir
  | _ => lookup p (nodes fs)
  end.

(** [childName dir p] is the name of [p] in [dir] when [p] lies directly in it. *)
Fixpoint childName (dir p : Path) : option string :=
  match dir, p with
  | [], [n] => Some n
  | d :: dir', s :: p' => if String.eqb d s then childName dir' p' else None
  | _, _ => None
  end.

Fixpoint childNames (dir : Path) (l : list (Path * Node)) : list string :=
  match l with
  | [] => []
  | (p, _) :: l' =>
      match childName dir p with
      | Some n => n :: childNames dir l'
      | None => childNames dir l'
      end
  end.

Definition readdir (fs : t) (dir : Path) : Result (list string) :=
  if isDenied fs Sscandir dir then Throw (IOError EACCES Sscandir dir)
  else match nodeAt fs dir with
       | Some Dir => Ok (childNames dir (nodes fs))
       | Some (File _) => Throw (IOError ENOTDIR Sscandir dir)
       | None => Throw (IOError ENOENT Sscandir dir)
       end.

Definition stat (fs : t) (p : Path) : Result Stats :=
  if isDenied fs Sstat p then Throw (IOError EACCES Sstat p)
  else match nodeAt fs p with
       | Some (File content) => Ok {| isDirectory := false; size := List.length content |}
       | Some Dir => Ok {| isDirectory := true; size := 4096 |}
       | None => Throw (IOError ENOENT Sstat p)
       end.

Fixpoint remove (p : Path) (l : list (Path * Node)) : list (Path * Node) :=
  match l with
  | [] => []
  | (q, n) :: l' => if path_eqb q p then remove p l' else (q, n) :: remove p l'
  end.

Definition withNodes (fs : t) (l : list (Path * Node)) : t :=
  {| cwd := cwd fs; nodes := l; denied := denied fs |}.

(** Why [unlink p] would fail, if it would. *)
Definition unlinkError (fs : t) (p : Path) : option Error :=
  if isDenied fs Sunlink p then Some (IOError EACCES Sunlink p)
  else match nodeAt fs p with
       | Some (File _) => None
       | Some Dir => Some (IOError EISDIR Sunlink p)
       | None => Some (IOError ENOENT Sunlink p)
       end.

Definition unlink (fs : t) (p : Path) : Result t :=
  match unlinkError fs p with
  | Some e => Throw e
  | None => Ok (withNodes fs (remove p (nodes fs)))
  end.

Fixpoint replace (p : Path) (n : Node) (l : list (Path * Node)) : list (Path * Node) :=
  match l with
  | [] => []
  | (q, m) :: l' => if path_eqb q p then (q, n) :: l' else (q, m) :: replace p n l'
  end.

(** The length of a name in bytes: the system takes the UTF-8 encoding, one
    byte below U+0080 and two from there to U+00FF. *)
Fixpoint utf8Length (s : string) : nat :=
  match s with
  | EmptyString => 0
  | String c s' => (if (N_of_ascii c <? 128)%N then 1 else 2) + utf8Length s'
  end.

Definition NAME_MAX : nat := 255.
Definition PATH_MAX : nat := 4096.

(** The bytes of the path as the system is given it, a slash before every
    component. *)
Definition pathBytes (p : Path) : nat :=
  fold_right (fun seg n => 1 + utf8Length seg + n) 0 p.

(** What stops the walk from the root, component by component, down to the
    last component of [below]: a name of more than [NAME_MAX] bytes
    ([ENAMETOOLONG]) and, before the last component, one that is not there
    ([ENOENT]) or is a regular file ([ENOTDIR]). [above] is the directory
    reached so far. *)
Fixpoint obstacle (fs : t) (above below : Path) : option Errno :=
  match below with
  | [] => None
  | seg :: below' =>
      if Nat.ltb NAME_MAX (utf8Length seg) then Some ENAMETOOLONG
      else match below' with
           | [] => None
           | _ :: _ =>
               match nodeAt fs (above ++ [seg]) with
               | Some Dir => obstacle fs (above ++ [seg]) below'
               | Some (File _) => Some ENOTDIR
               | None => Some ENOENT
               end
           end
  end.

(** A path with a null byte is refused by Node before the system is asked. *)
Definition hasNullByte (p : Path) : bool :=
  existsb (anyChar (fun c => (N_of_ascii c =? 0)%N)) p.

(** [writeFile(p, data)]: an existing file is overwritten in place, a new
    one comes last in the enumeration of its directory. The call is refused
    when the file cannot be opened: the path has a null byte or takes
    [PATH_MAX] bytes or more, the system denies the call, the walk down to
    [p] meets an [obstacle], or [p] is a directory. A refused open leaves the
    file system as it was. An error of the device after the open (a full
    disk), which leaves the file empty or cut short, is outside this model. *)
Definition writeFile (fs : t) (p : Path) (data : list Byte.byte) : Result t :=
  if hasNullByte p then Throw (InvalidArgValueError p)
  else if Nat.leb PATH_MAX (pathBytes p) then Throw (IOError ENAMETOOLONG Sopen p)
  else if isDenied fs Sopen p then Throw (IOError EACCES Sopen p)
  else match obstacle fs [] p with
       | Some code => Throw (IOError code Sopen p)
       | None =>
           match nodeAt fs p with
           | Some Dir => Throw (IOError EISDIR Sopen p)
           | Some (File _) => Ok (withNodes fs (replace p (File data) (nodes fs)))
           | None => Ok (withNodes fs (nodes fs ++ [(p, File data)]))
           end
       end.

(** The bytes of the regular file at [p], for the statements. *)
Definition readFile (fs : t) (p : Path) : option (list Byte.byte) :=
  match nodeAt fs p with
  | Some (File content) => Some content
  | _ => None
  end.

Fixpoint noDupPaths (l : list Path) : bool :=
  match l with
  | [] => true
  | p :: l' => negb (existsb (path_eqb p) l') && noDupPaths l'
  end.

(** A well-formed file system: no path twice, and every component a name. *)
Definition wf (fs : t) : bool :=
  noDupPaths (map fst (nodes fs))
  && forallb (fun p => forallb validName p) (map fst (nodes fs)).

Definition isRegularFile (fs : t) (p : Path) : bool :=
  match nodeAt fs p with
  | Some (File _) => true
  | _ => false
  end.

(** [p] lies in [dir] or below it. *)
Fixpoint inside (dir p : Path) : bool :=
  match dir, p with
  | [], _ => true
  | d :: dir', s :: p' => String.eqb d s && inside dir' p'
  | _ :: _, [] => false
  end.

End FS.

(** ** The font service, [FontsService] of [./index]

    The provider reaches it through [getFontInfo] and through two private
    members, the field [fontRoot] and the method [loadSingleFont]. Its own
    code is not part of these sources: it is a parameter of the development.
    [loadSingleFont] reads the file system and may reject; it changes the
    cache only. *)

Module FontInfo.
Record t := { dataUrl : string }.
End FontInfo.

Class FontsService := {
  Cache : Type;
  fontRoot : string;
  getFontInfo : Cache -> string -> option FontInfo.t;
  loadSingleFont : FS.t -> Path -> Cache -> Result Cache
}.

(** The file name without its extension. *)
Definition stem (file : string) : string :=
  JS.slice file 0 (JS.len file - JS.len (extname file)).

(** ** The provider *)

Definition SUPPORTED_FORMATS : list string :=
  [".ttf"; ".otf"; ".woff"; ".woff2"; ".ttc";
   ".eot"; ".svg"; ".dfont"; ".fon"; ".pfa"; ".pfb"].

(** The extension of [file], compared without regard to case, is one of
    the supported formats. *)
Definition allowListed (file : string) : bool :=
  JS.includes SUPPORTED_FORMATS (JS.toLowerCase (extname file)).

Record GlyphFont := {
  name : string;               (* font file name, without the extension *)
  fileName : string;           (* full file name *)
  format : string;             (* font format *)
  size : nat;                  (* file size in bytes *)
  path : Path;                 (* file path *)
  dataUrl : option string      (* base64 data URL, for the preview *)
}.

Record GlyphPayload := {
  fonts : list GlyphFont
}.

Inductive Level := LDebug | LInfo | LWarn | LError.

(** The messages of the logger, one constructor per message of the source. *)
Inductive Message :=
| MsgReadFontDirFailed
| MsgFontFileDeleted (file : string)
| MsgDeleteFontFailed (fontName : string)
| MsgUploadSucceeded (file : string) (bytes : nat)
| MsgFontLoaded (fontName : string)
| MsgUploadFailed (file : string)
| MsgAlreadyInMemory (fontName : string)
| MsgLoadedOnDemand (fontName : string)
| MsgFontFileNotFound (fontName : string)
| MsgLoadOnDemandFailed (fontName : string).

Record LogEntry := {
  level : Level;
  message : Message;
  cause : option Error
}.

(** What [deleteFont] logs for each file it has removed. *)
Definition deletedEntry (file : string) : LogEntry :=
  {| level := LInfo; message := MsgFontFileDeleted file; cause := None |}.

Section Provider.

Context {S : FontsService}.

Record World := {
  fs : FS.t;
  cache : Cache;
  log : list LogEntry
}.

(** An asynchronous computation: it runs on the world and either returns or
    throws; what it did to the world before throwing stays done. *)
Definition M (A : Type) : Type := World -> Result A * World.

Definition ret {A} (a : A) : M A := fun w => (Ok a, w).

Definition throw {A} (err : Error) : M A := fun w => (Throw err, w).

Definition bind {A B} (m : M A) (k : A -> M B) : M B :=
  fun w =>
    match m w with
    | (Ok a, w') => k a w'
    | (Throw err, w') => (Throw err, w')
    end.

Definition tryCatch {A} (body : M A) (handler : Error -> M A) : M A :=
  fun w =>
    match body w with
    | (Ok a, w') => (Ok a, w')
    | (Throw err, w') => handler err w'
    end.

Notation "x <- m ;; k" := (bind m (fun x => k))
  (at level 61, m at next level, right associativity).
Notation "m ;;; k" := (bind m (fun _ => k))
  (at level 61, right associativity).

Definition logger (lvl : Level) (msg : Message) (err : option Error) : M unit :=
  fun w =>
    (Ok tt, {| fs := fs w; cache := cache w;
               log := log w ++ [{| level := lvl; message := msg; cause := err |}] |}).

Definition withFs (w : World) (fs' : FS.t) : World :=
  {| fs := fs'; cache := cache w; log := log w |}.

Definition withCache (w : World) (c : Cache) : World :=
  {| fs := fs w; cache := c; log := log w |}.

(** [resolve(...)] reads the working directory of the process. *)
Definition pathResolve (args : list string) (w : World) : Path :=
  resolve (FS.cwd (fs w)) args.

Definition readdir (dir : string) : M (list string) :=
  fun w => (FS.readdir (fs w) (pathResolve [dir] w), w).

Definition unlink (p : Path) : M unit :=
  fun w =>
    match FS.unlink (fs w) p with
    | Ok fs' => (Ok tt, withFs w fs')
    | Throw err => (Throw err, w)
    end.

Definition writeFile (p : Path) (data : list Byte.byte) : M unit :=
  fun w =>
    match FS.writeFile (fs w) p data with
    | Ok fs' => (Ok tt, withFs w fs')
    | Throw err => (Throw err, w)
    end.

Definition glyphService_getFontInfo (fontName : string) (w : World) : option FontInfo.t :=
  getFontInfo (cache w) fontName.

Definition glyphService_loadSingleFont (p : Path) : M unit :=
  fun w =>
    match loadSingleFont (fs w) p (cache w) with
    | Ok c => (Ok tt, withCache w c)
    | Throw err => (Throw err, w)
    end.

(** [listFonts], the body of its [for] loop. The array [fonts] is declared
    before the [try]: what was pushed before an exception survives it, so
    the loop returns the array together with its outcome. Nothing in the loop
    changes the world. *)
Fixpoint listFonts_for (w : World) (files : list string) (fonts : list GlyphFont)
  : list GlyphFont * Result unit :=
  match files with
  | [] => (fonts, Ok tt)
  | file :: rest =>
      let ext := JS.toLowerCase (extname file) in
      (* only the supported font formats *)
      if negb (JS.includes SUPPORTED_FORMATS ext) then listFonts_for w rest fonts
      else
        let filePath := pathResolve [fontRoot; file] w in
        match FS.stat (fs w) filePath with
        | Throw err => (fonts, Throw err)
        | Ok fileStats =>
            (* skip the directories *)
            if FS.isDirectory fileStats then listFonts_for w rest fonts
            else
              let fontName := basename file ext in
              let fontInfo := glyphService_getFontInfo fontName w in
              listFonts_for w rest
                (fonts ++ [{| name := fontName;
                              fileName := file;
                              format := JS.sliceFrom ext 1;
                              size := FS.size fileStats;
                              path := filePath;
                              dataUrl := option_map FontInfo.dataUrl fontInfo |}])
        end
  end.

Definition listFonts : M (list GlyphFont) :=
  fun w =>
    let (fonts, outcome) :=
      match FS.readdir (fs w) (pathResolve [fontRoot] w) with
      | Ok files => listFonts_for w files []
      | Throw err => ([], Throw err)
      end in
    match outcome with
    | Ok _ => (Ok fonts, w)
    | Throw err => (Ok fonts, snd (logger LError MsgReadFontDirFailed (Some err) w))
    end.

(** The predicate of [files.filter] in [deleteFont]. *)
Definition matchesFont (fontName file : string) : bool :=
  let ext := JS.toLowerCase (extname file) in
  let name := basename file ext in
  String.eqb name fontName && JS.includes SUPPORTED_FORMATS ext.

Fixpoint deleteFont_for (matchingFiles : list string) : M unit :=
  match matchingFiles with
  | [] => ret tt
  | file :: rest =>
      fun w =>
        let filePath := pathResolve [fontRoot; file] w in
        (unlink filePath ;;;
         logger LInfo (MsgFontFileDeleted file) None ;;;
         deleteFont_for rest) w
  end.

Definition deleteFont (fontName : string) : M unit :=
  tryCatch
    (files <- readdir fontRoot ;;
     let matchingFiles := filter (matchesFont fontName) files in
     deleteFont_for matchingFiles)
    (fun err =>
       logger LError (MsgDeleteFontFailed fontName) (Some err) ;;;
       throw err).

Definition uploadFont (fileName base64Data : string) : M unit :=
  tryCatch
    (let ext := JS.toLowerCase (extname fileName) in
     (if negb (JS.includes SUPPORTED_FORMATS ext)
      then throw (UnsupportedFormatError ext) else ret tt) ;;;
     match match_data_url base64Data with
     | None => throw InvalidEncodingError
     | Some (_, base64Content) =>
         let buffer := Buffer_from_base64 base64Content in
         fun w =>
           let filePath := pathResolve [fontRoot; fileName] w in
           (writeFile filePath buffer ;;;
            logger LInfo (MsgUploadSucceeded fileName (List.length buffer)) None ;;;
            (* load the uploaded font at once, for the preview *)
            let fontName := basename fileName ext in
            glyphService_loadSingleFont filePath ;;;
            logger LInfo (MsgFontLoaded fontName) None) w
     end)
    (fun err =>
       logger LError (MsgUploadFailed fileName) (Some err) ;;;
       throw err).

(** [loadedFont?.dataUrl || null] *)
Definition orNull (v : option string) : option string :=
  if JS.truthy v then v else None.

Fixpoint loadFontOnDemand_for (fontName : string) (files : list string) : M (option string) :=
  match files with
  | [] =>
      logger LWarn (MsgFontFileNotFound fontName) None ;;;
      ret None
  | file :: rest =>
      let ext := JS.toLowerCase (extname file) in
      let name := basename file ext in
      if String.eqb name fontName && JS.includes SUPPORTED_FORMATS ext then
        fun w =>
          let filePath := pathResolve [fontRoot; file] w in
          (glyphService_loadSingleFont filePath ;;;
           logger LInfo (MsgLoadedOnDemand fontName) None ;;;
           fun w' => ret (orNull (option_map FontInfo.dataUrl (glyphService_getFontInfo fontName w'))) w') w
      else loadFontOnDemand_for fontName rest
  end.

Definition loadFontOnDemand (fontName : string) : M (option string) :=
  tryCatch
    (fun w =>
       (* already in memory? *)
       let fontInfo := glyphService_getFontInfo fontName w in
       if JS.truthy (option_map FontInfo.dataUrl fontInfo) then
         (logger LDebug (MsgAlreadyInMemory fontName) None ;;;
          ret (option_map FontInfo.dataUrl fontInfo)) w
       else
         (files <- readdir fontRoot ;;
          loadFontOnDemand_for fontName files) w)
    (fun err =>
       logger LError (MsgLoadOnDemandFailed fontName) (Some err) ;;;
       ret None).

(** [get], the data of the provider: what the console is sent. *)
Definition get : M GlyphPayload :=
  fonts <- listFonts ;;
  ret {| fonts := fonts |}.

End Provider.

Arguments World S : clear implicits.
Arguments M S A : clear implicits.

(** ** Font services to run the provider on *)

Module MemoryService.

Definition base64Char (n : N) : ascii :=
  if (n <? 26)%N then ascii_of_N (n + 65)
  else if (n <? 52)%N then ascii_of_N (n - 26 + 97)
  else if (n <? 62)%N then ascii_of_N (n - 52 + 48)
  else if (n =? 62)%N then "+"%char
  else "/"%char.

Fixpoint encode (l : list Byte.byte) : string :=
  match l with
  | [] => EmptyString
  | [x] =>
      let a := Byte.to_N x in
      String (base64Char (N.shiftr a 2))
        (String (base64Char (N.shiftl (N.land a 3) 4)) "==")
  | [x; y] =>
      let a := Byte.to_N x in
      let b := Byte.to_N y in
      String (base64Char (N.shiftr a 2))
        (String (base64Char (N.lor (N.shiftl (N.land a 3) 4) (N.shiftr b 4)))
           (String (base64Char (N.shiftl (N.land b 15) 2)) "="))
  | x :: y :: z :: rest =>
      let a := Byte.to_N x in
      let b := Byte.to_N y in
      let c := Byte.to_N z in
      String (base64Char (N.shiftr a 2))
        (String (base64Char (N.lor (N.shiftl (N.land a 3) 4) (N.shiftr b 4)))
           (String (base64Char (N.lor (N.shiftl (N.land b 15) 2) (N.shiftr c 6)))
              (String (base64Char (N.land c 63)) (encode rest))))
  end.

Definition cacheOf : Type := list (string * FontInfo.t).

Fixpoint find (fontName : string) (c : cacheOf) : option FontInfo.t :=
  match c with
  | [] => None
  | (k, v) :: c' => if String.eqb k fontName then Some v else find fontName c'
  end.

(** Modelled from the spec: [loadSingleFont] takes an absolute file path and
    populates the cache entry keyed by the stem; [getFontInfo] answers with
    the data URL of the entry, [data:<mime>;base64,<payload>], or nothing. *)
Definition load (fs : FS.t) (p : Path) (c : cacheOf) : Result cacheOf :=
  match FS.readFile fs p with
  | Some bytes =>
      let file := last p "" in
      let url := ("data:font/" ++ JS.sliceFrom (JS.toLowerCase (extname file)) 1
                  ++ ";base64," ++ encode bytes)%string in
      Ok ((stem file, {| FontInfo.dataUrl := url |}) :: c)
  | None => Throw (ServiceError "font file cannot be read")
  end.

Definition service (root : string) : FontsService :=
  {| Cache := cacheOf;
     fontRoot := root;
     getFontInfo := fun c fontName => find fontName c;
     loadSingleFont := load |}.



(** A service whose [loadSingleFont] rejects every file. *)
Definition rejecting (root : string) : FontsService :=
  {| Cache := cacheOf;
     fontRoot := root;
     getFontInfo := fun c fontName => find fontName c;
     loadSingleFont := fun _ p _ => Throw (ServiceError "font data rejected") |}.

End MemoryService.

(** ** Worlds of the examples: the storage directory is [/data/fonts] *)

Module Examples.

Definition ABC : list Byte.byte := [Byte.x41; Byte.x42; Byte.x43].

Definition world (S : FontsService) (c : Cache) (entries : list (Path * FS.Node))
  (refused : list (Syscall * Path)) : World S :=
  {| fs := {| FS.cwd := ["srv"; "koishi"];
              FS.nodes := (["data"], FS.Dir) :: (["data"; "fonts"], FS.Dir) :: entries;
              FS.denied := refused |};
     cache := c;
     log := [] |}.

Definition svc : FontsService := MemoryService.service "/data/fonts".
Definition svcRejecting : FontsService := MemoryService.rejecting "/data/fonts".

Definition inFonts (file : string) : Path := ["data"; "fonts"; file].

(** [arial.ttf] and [arial.woff], a directory [icons.svg], a text file, and
    [Arial.TTF] with its extension in capitals. *)
Definition mixed : World svc :=
  world svc []
    [(inFonts "arial.ttf", FS.File ABC);
     (inFonts "icons.svg", FS.Dir);
     (inFonts "notes.txt", FS.File [Byte.x41]);
     (inFonts "arial.woff", FS.File [Byte.x41; Byte.x42]);
     (inFonts "Arial.TTF", FS.File [])] [].

(** The same without [Arial.TTF]: every extension is in lower case. *)
Definition lowerCase : World svc :=
  world svc []
    [(inFonts "arial.ttf", FS.File ABC);
     (inFonts "icons.svg", FS.Dir);
     (inFonts "notes.txt", FS.File [Byte.x41]);
     (inFonts "arial.woff", FS.File [Byte.x41; Byte.x42])] [].

Definition upperOnly : World svc :=
  world svc [] [(inFonts "Arial.TTF", FS.File ABC)] [].


Definition empty : World svc := world svc [] [] [].

(** An older [noto.otf] is already there. *)
Definition stale : World svc :=
  world svc [] [(inFonts "noto.otf", FS.File [Byte.x00; Byte.x01])] [].
Definition emptyRejecting : World svcRejecting := world svcRejecting [] [] [].

(** [broken.otf] cannot be stat-ed. *)
Definition unstatable : World svc :=
  world svc []
    [(inFonts "arial.ttf", FS.File ABC);
     (inFonts "broken.otf", FS.File ABC);
     (inFonts "arial.woff", FS.File ABC)] [(Sstat, inFonts "broken.otf")].

(** [arial] is in the cache, its file on disk. *)
Definition cached : World svc :=
  world svc [("arial", {| FontInfo.dataUrl := "data:font/ttf;base64,QUJD" |})]
    [(inFonts "arial.ttf", FS.File ABC)] [].

(** The storage directory cannot be read. *)
Definition unreadable : World svc :=
  world svc [] [(inFonts "arial.ttf", FS.File ABC)] [(Sscandir, ["data"; "fonts"])].

(** [arial.otf] cannot be removed. *)
Definition locked : World svc :=
  world svc []
    [(inFonts "arial.ttf", FS.File ABC);
     (inFonts "arial.otf", FS.File ABC);
     (inFonts "arial.woff", FS.File ABC)] [(Sunlink, inFonts "arial.otf")].

End Examples.

(** * Properties *)

(** [H : In x [a; b; ...]]: runs [tac] with [x] replaced by each member. *)
Ltac for_each_member H tac :=
  simpl in H; repeat (destruct H as [<-|H]; [tac|]); contradiction.

(** ** Strings and paths *)

#[local] Arguments Ascii.eqb : simpl never.
#[local] Arguments String.eqb : simpl never.

Example extname_cases :
  forallb (fun '(p, ext) => String.eqb (extname p) ext) extnameCases = true.
Proof. vm_compute. reflexivity. Qed.

Example basename_cases :
  forallb (fun '(p, suffix, base) => String.eqb (basename p suffix) base) basenameCases
  = true.
Proof. vm_compute. reflexivity. Qed.

Example resolve_cases :
  resolve ["srv"] ["/data/fonts"; "arial.ttf"] = ["data"; "fonts"; "arial.ttf"]
  /\ resolve ["srv"] ["/data/fonts"; "../evil.ttf"] = ["data"; "evil.ttf"]
  /\ resolve ["srv"] ["/data/fonts"; "/tmp/x.ttf"] = ["tmp"; "x.ttf"]
  /\ resolve ["srv"; "app"] ["data/fonts/"; "./a//b/../c.ttf"]
     = ["srv"; "app"; "data"; "fonts"; "a"; "c.ttf"]
  /\ resolve ["srv"] ["/.."; ""; "../.."] = [].
Proof. repeat split. Qed.

Example payload_cases :
  match_data_url "data:font/otf;base64,QUJD" = Some ("font/otf", "QUJD")
  /\ match_data_url "data:font/otf;charset=x;base64,QUJD" = None
  /\ match_data_url "data:;base64,QUJD" = None
  /\ match_data_url "data:a;base64," = None
  /\ match_data_url "xdata:a;base64,Q" = None
  /\ Buffer_from_base64 "QUJD" = [Byte.x41; Byte.x42; Byte.x43]
  /\ Buffer_from_base64 "QUI=" = [Byte.x41; Byte.x42]
  /\ Buffer_from_base64 "QQ==" = [Byte.x41]
  /\ Buffer_from_base64 "/+8A" = [Byte.xff; Byte.xef; Byte.x00].
Proof. repeat split. Qed.

Lemma path_eqb_eq (p q : Path) : FS.path_eqb p q = true <-> p = q.
Proof.
  revert q; induction p as [|a p IH]; intros [|b q]; simpl; split; intro H;
    try reflexivity; try discriminate.
  - apply andb_true_iff in H as [Hab Hpq].
    apply String.eqb_eq in Hab. apply IH in Hpq. now subst.
  - injection H as -> ->. rewrite String.eqb_refl. now apply IH.
Qed.

Lemma path_eqb_refl (p : Path) : FS.path_eqb p p = true.
Proof. now apply path_eqb_eq. Qed.

Lemma path_eqb_neq (p q : Path) : p <> q -> FS.path_eqb p q = false.
Proof.
  intro H. destruct (FS.path_eqb p q) eqn:E; [|reflexivity].
  now apply path_eqb_eq in E.
Qed.

Lemma stripPrefix_app (p s r : string) :
  stripPrefix p s = Some r <-> s = (p ++ r)%string.
Proof.
  revert s; induction p as [|a p IH]; intros s; simpl.
  - split; [now intros [= ->] | now intros ->].
  - destruct s as [|b s]; [split; discriminate|].
    destruct (Ascii.eqb a b) eqn:E.
    + apply Ascii.eqb_eq in E; subst b. rewrite IH.
      split; [now intros -> | now intros [= ->]].
    + split; [discriminate|]. intros [= <- _]. now rewrite Ascii.eqb_refl in E.
Qed.

Lemma spanNot_app (c : ascii) (s : string) :
  (fst (spanNot c s) ++ snd (spanNot c s))%string = s
  /\ anyChar (Ascii.eqb c) (fst (spanNot c s)) = false.
Proof.
  induction s as [|a s [IH1 IH2]]; simpl; [now split|].
  destruct (Ascii.eqb a c) eqn:E; simpl; [now split|].
  destruct (spanNot c s) as [m r]; simpl in *. split; [now rewrite IH1|].
  rewrite Ascii.eqb_sym, E. exact IH2.
Qed.

Lemma spanNot_stop (c : ascii) (m r : string) :
  anyChar (Ascii.eqb c) m = false ->
  spanNot c (m ++ String c r) = (m, String c r).
Proof.
  induction m as [|a m IH]; simpl; intro H.
  - now rewrite Ascii.eqb_refl.
  - apply orb_false_iff in H as [Ha Hm].
    rewrite Ascii.eqb_sym, Ha, (IH Hm). reflexivity.
Qed.

Lemma isEmpty_false (s : string) : isEmpty s = false <-> s <> "".
Proof. destruct s; simpl; split; congruence. Qed.

(** The matcher decides the language of the regular expression. *)
Lemma match_data_url_Some (s mime body : string) :
  match_data_url s = Some (mime, body) <->
  s = ("data:" ++ mime ++ ";base64," ++ body)%string
  /\ mime <> "" /\ anyChar (Ascii.eqb ";") mime = false
  /\ body <> "" /\ anyChar isLineTerminator body = false.
Proof.
  unfold match_data_url. split.
  - destruct (stripPrefix "data:" s) as [r|] eqn:E1; [|discriminate].
    apply stripPrefix_app in E1.
    destruct (spanNot_app ";" r) as [Happ Hm].
    destruct (spanNot ";" r) as [m r1]; simpl in Happ, Hm.
    destruct (isEmpty m) eqn:E2; [discriminate|].
    destruct (stripPrefix ";base64," r1) as [d|] eqn:E3; [|discriminate].
    apply stripPrefix_app in E3.
    destruct (isEmpty d || anyChar isLineTerminator d) eqn:E4; [discriminate|].
    apply orb_false_iff in E4 as [E4 E5].
    intros [= <- <-]. subst s r1. rewrite <- Happ.
    repeat split; try assumption; now apply isEmpty_false.
  - intros (-> & Hm & Hs & Hb & Hl).
    assert (E1 : stripPrefix "data:" ("data:" ++ mime ++ ";base64," ++ body)%string
                 = Some (mime ++ ";base64," ++ body)%string) by now apply stripPrefix_app.
    rewrite E1.
    change (mime ++ ";base64," ++ body)%string
      with (mime ++ String ";" ("base64," ++ body))%string.
    rewrite (spanNot_stop ";" mime _ Hs).
    apply isEmpty_false in Hm, Hb. rewrite Hm.
    assert (E3 : stripPrefix ";base64," (String ";" ("base64," ++ body)) = Some body)
      by now apply stripPrefix_app.
    rewrite E3, Hb, Hl. reflexivity.
Qed.

Lemma match_data_url_None (s : string) :
  match_data_url s = None <-> ~ data_url_pattern s.
Proof.
  split.
  - intros HN (mime & body & H). apply match_data_url_Some in H. congruence.
  - intro H. destruct (match_data_url s) as [[mime body]|] eqn:E; [|reflexivity].
    exfalso. apply H. exists mime, body. now apply match_data_url_Some.
Qed.

Lemma split_no_slash (n : string) :
  anyChar (Ascii.eqb "/") n = false -> split n = [n].
Proof.
  induction n as [|c n IH]; simpl; intro H; [reflexivity|].
  apply orb_false_iff in H as [Hc Hn].
  rewrite Ascii.eqb_sym, Hc, (IH Hn). reflexivity.
Qed.

Lemma validName_inv (n : string) :
  validName n = true ->
  n <> "" /\ n <> "." /\ n <> ".." /\ anyChar (Ascii.eqb "/") n = false.
Proof.
  unfold validName. intro H.
  repeat (apply andb_true_iff in H as [H ?]).
  repeat match goal with
         | X : negb _ = true |- _ => apply negb_true_iff in X
         end.
  repeat split; try assumption; intros ->; discriminate.
Qed.

Lemma normalize_snoc (l : list string) (n : string) :
  validName n = true -> normalize (l ++ [n]) = normalize l ++ [n].
Proof.
  intro H. apply validName_inv in H as (H0 & H1 & H2 & _).
  unfold normalize. rewrite fold_left_app. simpl. unfold normalizeStep at 1.
  apply String.eqb_neq in H0, H1, H2. rewrite H0, H1, H2. reflexivity.
Qed.

(** A directory entry resolves to the directory's path with its name added. *)
Lemma resolve_child (cwd : Path) (root n : string) :
  validName n = true -> resolve cwd [root; n] = resolve cwd [root] ++ [n].
Proof.
  intro H. pose proof (validName_inv n H) as (H0 & _ & _ & Hs).
  unfold resolve. simpl rev. simpl app.
  assert (E : segments cwd [n; root] = segments cwd [root] ++ [n]).
  { cbn [segments]. rewrite (split_no_slash n Hs).
    destruct n as [|c n]; [congruence|]. cbn [isEmpty isAbsolute].
    cbn [anyChar] in Hs. apply orb_false_iff in Hs as [Hc _].
    rewrite Ascii.eqb_sym, Hc. reflexivity. }
  rewrite E. now apply normalize_snoc.
Qed.

(** ** The extension and the stem of a plain file name *)

Lemma get_no_slash (s : string) (i : nat) (c : ascii) :
  anyChar (Ascii.eqb "/") s = false -> String.get i s = Some c -> c <> "/"%char.
Proof.
  revert i; induction s as [|a s IH]; intros i H Hget; [discriminate|].
  cbn [anyChar] in H. apply orb_false_iff in H as [Ha Hs].
  destruct i as [|i]; simpl in Hget.
  - injection Hget as ->. intros ->. now rewrite Ascii.eqb_refl in Ha.
  - now apply (IH i).
Qed.

Lemma charCode_inj (c d : ascii) : JS.charCode c = JS.charCode d -> c = d.
Proof.
  unfold JS.charCode. intro H. apply N2Z.inj in H.
  rewrite <- (ascii_N_embedding c), <- (ascii_N_embedding d). now rewrite H.
Qed.

Lemma charCodeAt_no_slash (s : string) (n : nat) :
  anyChar (Ascii.eqb "/") s = false ->
  (JS.charCodeAt s (Z.of_nat n) =? CHAR_FORWARD_SLASH)%Z = false.
Proof.
  intro H. unfold JS.charCodeAt. rewrite Nat2Z.id.
  destruct (String.get n s) as [c|] eqn:E; [|reflexivity].
  apply Z.eqb_neq. intro Hc. apply (get_no_slash s n c H E).
  apply charCode_inj. exact Hc.
Qed.

(** The scan of [extname] over a name without [/]: the extension ends with
    the name, and once a character before the dot has been seen the dot is
    not the first one. *)
Lemma extname_scan_plain (s : string) :
  anyChar (Ascii.eqb "/") s = false ->
  forall (n : nat) (st : ExtScan),
    (n <= String.length s)%nat ->
    ((extEnd st = -1 /\ n = String.length s) \/ extEnd st = JS.len s)%Z ->
    ((startDot st = -1 /\ preDotState st = 0)
     \/ (Z.of_nat n <= startDot st < JS.len s
         /\ (preDotState st <> 0 -> Z.of_nat n < startDot st)))%Z ->
    let st' := extname_scan s n st in
    ((extEnd st' = -1 /\ String.length s = 0%nat) \/ extEnd st' = JS.len s)%Z
    /\ ((startDot st' = -1 /\ preDotState st' = 0)
        \/ (0 <= startDot st' < JS.len s /\ (preDotState st' <> 0 -> 0 < startDot st')))%Z.
Proof.
  intros Hs. unfold JS.len. induction n as [|n IH]; intros st Hn Hend Hdot.
  - cbn. split; [|exact Hdot]. destruct Hend as [[H1 H2]|H]; [left|right]; auto.
  - cbn [extname_scan]. rewrite (charCodeAt_no_slash s n Hs).
    apply IH; [lia| |].
    + destruct (extEnd st =? -1)%Z eqn:E1;
        destruct (JS.charCodeAt s (Z.of_nat n) =? CHAR_DOT)%Z;
        repeat match goal with
               | |- context [if ?b then _ else _] => destruct b
               end; cbn [extEnd]; try lia;
        apply Z.eqb_neq in E1; lia.
    + destruct (extEnd st =? -1)%Z;
        destruct (JS.charCodeAt s (Z.of_nat n) =? CHAR_DOT)%Z;
        cbn [startDot preDotState];
        repeat match goal with
               | |- context [(?a =? ?b)%Z] => destruct (Z.eqb_spec a b)
               end; cbn [negb startDot preDotState]; lia.
Qed.

Lemma length_substring (s : string) (n m : nat) :
  (n + m <= String.length s)%nat -> String.length (substring n m s) = m.
Proof.
  revert n m; induction s as [|a s IH]; intros n m H; simpl in H.
  - assert (n = 0 /\ m = 0)%nat as [-> ->] by lia. reflexivity.
  - destruct n as [|n]; [destruct m as [|m]|]; simpl; [reflexivity| |].
    + f_equal. apply (IH 0%nat). lia.
    + apply IH. lia.
Qed.

Lemma substring_all (s : string) : substring 0 (String.length s) s = s.
Proof. induction s as [|a s IH]; [reflexivity|]. cbn. now rewrite IH. Qed.

Lemma substring_split (s : string) (d : nat) :
  (d <= String.length s)%nat ->
  s = (substring 0 d s ++ substring d (String.length s - d) s)%string.
Proof.
  revert d; induction s as [|a s IH]; intros d Hd; simpl in Hd.
  - assert (d = 0)%nat as -> by lia. reflexivity.
  - destruct d as [|d].
    + rewrite Nat.sub_0_r, substring_all. reflexivity.
    + cbn [String.length Nat.sub substring append]. f_equal. apply IH. lia.
Qed.

Lemma slice_substring (s : string) (a b : nat) :
  (a <= b <= String.length s)%nat ->
  JS.slice s (Z.of_nat a) (Z.of_nat b) = substring a (b - a) s.
Proof.
  intro H. unfold JS.slice, JS.relIndex, JS.len.
  destruct (Z.ltb_spec (Z.of_nat a) 0); [lia|].
  destruct (Z.ltb_spec (Z.of_nat b) 0); [lia|].
  rewrite !Z.min_l by lia. rewrite Nat2Z.id. f_equal. lia.
Qed.

(** The extension of a name without [/] is empty or a proper suffix that
    starts at a dot after the first character. *)
Lemma extname_plain (s : string) :
  anyChar (Ascii.eqb "/") s = false ->
  extname s = ""
  \/ exists d, (1 <= d < String.length s)%nat
              /\ extname s = substring d (String.length s - d) s.
Proof.
  intro Hs. unfold extname.
  pose proof (extname_scan_plain s Hs (String.length s)
                {| startDot := -1; startPart := 0; extEnd := -1;
                   extMatchedSlash := true; preDotState := 0 |} (le_n _)) as H.
  cbn [extEnd startDot preDotState] in H.
  destruct H as [Hend Hdot]; [left; auto | left; auto |].
  set (st := extname_scan s (String.length s) _) in *.
  destruct (startDot st =? -1)%Z eqn:E1; [now left|].
  destruct (extEnd st =? -1)%Z eqn:E2; [now left|].
  destruct (preDotState st =? 0)%Z eqn:E3; [now left|].
  cbn [orb].
  destruct ((preDotState st =? 1) && (startDot st =? extEnd st - 1)
            && (startDot st =? startPart st + 1))%Z; [now left|].
  right. apply Z.eqb_neq in E1, E2, E3. unfold JS.len in *.
  exists (Z.to_nat (startDot st)).
  assert (Hd : (1 <= startDot st < Z.of_nat (String.length s))%Z) by lia.
  split; [lia|].
  replace (extEnd st) with (Z.of_nat (String.length s)) by lia.
  rewrite <- (Z2Nat.id (startDot st)) at 1 by lia.
  rewrite slice_substring by lia. reflexivity.
Qed.

Lemma charCodeAt_substring (s : string) (d i : nat) :
  (d <= i < String.length s)%nat ->
  JS.charCodeAt (substring d (String.length s - d) s) (Z.of_nat i - Z.of_nat d)
  = JS.charCodeAt s (Z.of_nat i).
Proof.
  intro H. unfold JS.charCodeAt.
  replace (Z.to_nat (Z.of_nat i - Z.of_nat d)) with (i - d)%nat by lia.
  rewrite Nat2Z.id, substring_correct1 by lia.
  replace (i - d + d)%nat with i by lia. reflexivity.
Qed.

(** The scan of [basename] once the suffix has been matched or given up:
    without [/] nothing changes any more. *)
Lemma basename_suffix_scan_done (s suffix : string) :
  anyChar (Ascii.eqb "/") s = false ->
  forall (n : nat) (st : BaseScan),
    extIdx st = (-1)%Z -> firstNonSlashEnd st <> (-1)%Z ->
    basename_suffix_scan s suffix n st = st.
Proof.
  intros Hs. induction n as [|n IH]; intros st Hidx Hfirst; [reflexivity|].
  cbn [basename_suffix_scan]. rewrite (charCodeAt_no_slash s n Hs).
  apply Z.eqb_neq in Hfirst. rewrite Hfirst, Hidx. cbn. apply IH.
  - exact Hidx.
  - now apply Z.eqb_neq.
Qed.

(** The scan of [basename] while the suffix [s[d..]] is being matched, [k]
    characters of it left. *)
Lemma basename_suffix_scan_match (s : string) (d : nat) :
  anyChar (Ascii.eqb "/") s = false ->
  (d < String.length s)%nat ->
  forall (k : nat) (st : BaseScan),
    (1 <= k)%nat -> (d + k <= String.length s)%nat ->
    start st = 0%Z -> baseEnd st = (-1)%Z -> extIdx st = (Z.of_nat k - 1)%Z ->
    (firstNonSlashEnd st = -1 /\ (d + k)%nat = String.length s
     \/ firstNonSlashEnd st = JS.len s)%Z ->
    let st' := basename_suffix_scan s (substring d (String.length s - d) s) (d + k) st in
    start st' = 0%Z /\ baseEnd st' = Z.of_nat d.
Proof.
  intros Hs Hd. induction k as [|k IH]; intros st Hk Hle Hstart Hend Hidx Hfirst; [lia|].
  rewrite Nat.add_succ_r. cbn [basename_suffix_scan].
  rewrite (charCodeAt_no_slash s (d + k) Hs).
  assert (Hcode : forall st1 : BaseScan,
            extIdx st1 = (Z.of_nat (S k) - 1)%Z ->
            (JS.charCodeAt s (Z.of_nat (d + k))
             =? JS.charCodeAt (substring d (String.length s - d) s) (extIdx st1))%Z = true).
  { intros st1 ->. apply Z.eqb_eq.
    replace (Z.of_nat (S k) - 1)%Z with (Z.of_nat (d + k) - Z.of_nat d)%Z by lia.
    symmetry. apply charCodeAt_substring. lia. }
  set (st1 := if (firstNonSlashEnd st =? -1)%Z then _ else st).
  assert (H1 : start st1 = 0%Z /\ baseEnd st1 = (-1)%Z
               /\ extIdx st1 = (Z.of_nat (S k) - 1)%Z
               /\ firstNonSlashEnd st1 = JS.len s).
  { unfold st1, JS.len in *. destruct (Z.eqb_spec (firstNonSlashEnd st) (-1));
      cbn [start baseEnd extIdx firstNonSlashEnd]; repeat split; try assumption; lia. }
  destruct H1 as (Hs1 & He1 & Hi1 & Hf1).
  rewrite (Hcode st1 Hi1).
  replace (0 <=? extIdx st1)%Z with true by (symmetry; apply Z.leb_le; lia).
  destruct (Z.eqb_spec (extIdx st1 - 1) (-1)) as [E|E].
  - assert (k = 0)%nat by lia. subst k. rewrite Nat.add_0_r.
    rewrite basename_suffix_scan_done; cbn [start baseEnd extIdx firstNonSlashEnd];
      auto; unfold JS.len in *; lia.
  - apply IH; cbn [start baseEnd extIdx firstNonSlashEnd]; try assumption; lia.
Qed.

(** For a name without [/], [basename] with the very extension of the name
    gives the stem. *)
Lemma basename_extname (s : string) :
  anyChar (Ascii.eqb "/") s = false ->
  extname s <> "" ->
  basename s (extname s) = stem s /\ s = (stem s ++ extname s)%string.
Proof.
  intros Hs Hext.
  destruct (extname_plain s Hs) as [H|(d & Hd & E)]; [contradiction|].
  unfold stem. rewrite E.
  assert (Hlen : String.length (substring d (String.length s - d) s)
                 = (String.length s - d)%nat) by (apply length_substring; lia).
  assert (Hstem : JS.slice s 0 (JS.len s - JS.len (substring d (String.length s - d) s))
                  = substring 0 d s).
  { unfold JS.len. rewrite Hlen.
    replace (Z.of_nat (String.length s) - Z.of_nat (String.length s - d))%Z
      with (Z.of_nat d) by lia.
    change 0%Z with (Z.of_nat 0). rewrite slice_substring by lia.
    now rewrite Nat.sub_0_r. }
  rewrite Hstem. split.
  - unfold basename, JS.len. rewrite Hlen.
    replace ((0 <? Z.of_nat (String.length s - d))
             && (Z.of_nat (String.length s - d) <=? Z.of_nat (String.length s)))%Z
      with true
      by (symmetry; apply andb_true_iff; split; [apply Z.ltb_lt|apply Z.leb_le]; lia).
    destruct (String.eqb_spec (substring d (String.length s - d) s) s) as [Heq|_].
    { rewrite Heq in Hlen. lia. }
    pose proof (basename_suffix_scan_match s d Hs (proj2 Hd) (String.length s - d)
                  {| start := 0; baseEnd := -1; matchedSlash := true;
                     extIdx := Z.of_nat (String.length s - d) - 1;
                     firstNonSlashEnd := -1 |}) as H.
    cbn [start baseEnd extIdx firstNonSlashEnd] in H.
    replace (d + (String.length s - d))%nat with (String.length s) in H by lia.
    destruct H as [Hstart Hend]; try reflexivity; try lia.
    rewrite Hstart, Hend.
    destruct (Z.eqb_spec 0 (Z.of_nat d)); [lia|].
    destruct (Z.eqb_spec (Z.of_nat d) (-1)); [lia|].
    change 0%Z with (Z.of_nat 0). rewrite slice_substring by lia.
    now rewrite Nat.sub_0_r.
  - apply substring_split. lia.
Qed.

(** The scan of [basename] over a name without [/] while [k] characters of
    the suffix are left to compare: it ends with the suffix cut off, or with
    the whole name once a character differs. *)
Lemma basename_suffix_scan_either (s suffix : string) (d : nat) :
  anyChar (Ascii.eqb "/") s = false ->
  (d + String.length suffix = String.length s)%nat ->
  forall (k : nat) (st : BaseScan),
    (1 <= k <= String.length suffix)%nat ->
    start st = 0%Z -> baseEnd st = (-1)%Z -> extIdx st = (Z.of_nat k - 1)%Z ->
    (firstNonSlashEnd st = -1 /\ (d + k)%nat = String.length s
     \/ firstNonSlashEnd st = JS.len s)%Z ->
    let st' := basename_suffix_scan s suffix (d + k) st in
    start st' = 0%Z /\ firstNonSlashEnd st' = JS.len s
    /\ (baseEnd st' = Z.of_nat d \/ baseEnd st' = JS.len s).
Proof.
  intros Hs Hd. induction k as [|k IH]; intros st Hk Hstart Hend Hidx Hfirst; [lia|].
  rewrite Nat.add_succ_r. cbn [basename_suffix_scan].
  rewrite (charCodeAt_no_slash s (d + k) Hs).
  set (st1 := if (firstNonSlashEnd st =? -1)%Z then _ else st).
  assert (H1 : start st1 = 0%Z /\ baseEnd st1 = (-1)%Z
               /\ extIdx st1 = (Z.of_nat (S k) - 1)%Z
               /\ firstNonSlashEnd st1 = JS.len s).
  { unfold st1, JS.len in *. destruct (Z.eqb_spec (firstNonSlashEnd st) (-1));
      cbn [start baseEnd extIdx firstNonSlashEnd]; repeat split; try assumption; lia. }
  destruct H1 as (Hs1 & He1 & Hi1 & Hf1).
  replace (0 <=? extIdx st1)%Z with true by (symmetry; apply Z.leb_le; lia).
  assert (Hlen : (1 <= String.length s)%nat) by lia.
  destruct (JS.charCodeAt s (Z.of_nat (d + k)) =? JS.charCodeAt suffix (extIdx st1))%Z.
  - destruct (Z.eqb_spec (extIdx st1 - 1) (-1)) as [E|E].
    + assert (k = 0)%nat by lia. subst k. rewrite Nat.add_0_r.
      rewrite basename_suffix_scan_done; cbn [start baseEnd extIdx firstNonSlashEnd];
        auto; unfold JS.len in *; lia.
    + apply IH; cbn [start baseEnd extIdx firstNonSlashEnd]; try assumption; lia.
  - rewrite basename_suffix_scan_done; cbn [start baseEnd extIdx firstNonSlashEnd];
      auto; unfold JS.len in *; lia.
Qed.

Lemma length_toLowerCase (s : string) :
  String.length (JS.toLowerCase s) = String.length s.
Proof. induction s as [|c s IH]; [reflexivity|]. cbn. now rewrite IH. Qed.

(** What the provider takes for the name of a font file, [basename] with the
    lower-cased extension, is the stem of the file or the whole file name. *)
Lemma basename_lower_extname (file : string) :
  anyChar (Ascii.eqb "/") file = false ->
  extname file <> "" ->
  basename file (JS.toLowerCase (extname file)) = stem file
  \/ basename file (JS.toLowerCase (extname file)) = file.
Proof.
  intros Hs Hext.
  destruct (extname_plain file Hs) as [H|(d & Hd & E)]; [contradiction|].
  assert (Hlen : String.length (JS.toLowerCase (extname file)) = (String.length file - d)%nat).
  { rewrite length_toLowerCase, E. apply length_substring. lia. }
  assert (Hwhole : JS.slice file 0 (JS.len file) = file).
  { unfold JS.len. change 0%Z with (Z.of_nat 0). rewrite slice_substring by lia.
    rewrite Nat.sub_0_r. apply substring_all. }
  unfold stem, basename, JS.len. rewrite Hlen.
  replace (String.length (extname file)) with (String.length file - d)%nat
    by (rewrite <- Hlen; apply length_toLowerCase).
  replace ((0 <? Z.of_nat (String.length file - d))
           && (Z.of_nat (String.length file - d) <=? Z.of_nat (String.length file)))%Z
    with true
    by (symmetry; apply andb_true_iff; split; [apply Z.ltb_lt|apply Z.leb_le]; lia).
  destruct (String.eqb_spec (JS.toLowerCase (extname file)) file) as [Heq|_].
  { rewrite Heq in Hlen. lia. }
  pose proof (basename_suffix_scan_either file (JS.toLowerCase (extname file)) d Hs
                ltac:(lia) (String.length file - d)
                {| start := 0; baseEnd := -1; matchedSlash := true;
                   extIdx := Z.of_nat (String.length file - d) - 1;
                   firstNonSlashEnd := -1 |}) as H.
  cbn [start baseEnd extIdx firstNonSlashEnd] in H.
  replace (d + (String.length file - d))%nat with (String.length file) in H by lia.
  destruct H as (Hstart & Hfirst & Hend); try reflexivity; try lia.
  rewrite Hstart, Hfirst. unfold JS.len in *.
  replace (Z.of_nat (String.length file) - Z.of_nat (String.length file - d))%Z
    with (Z.of_nat d) by lia.
  destruct Hend as [-> | ->].
  - left. destruct (Z.eqb_spec 0 (Z.of_nat d)); [lia|].
    destruct (Z.eqb_spec (Z.of_nat d) (-1)); [lia|]. reflexivity.
  - right. destruct (Z.eqb_spec 0 (Z.of_nat (String.length file))); [lia|].
    destruct (Z.eqb_spec (Z.of_nat (String.length file)) (-1)); [lia|]. exact Hwhole.
Qed.

Lemma allowListed_extname (file : string) :
  allowListed file = true -> extname file <> "".
Proof.
  unfold allowListed. intros H E. rewrite E in H. vm_compute in H. discriminate.
Qed.

(** The predicate of [deleteFont]'s filter on a plain name whose extension
    is in lower case: the stem is the name asked for and the extension is
    supported. *)
Lemma matchesFont_lower_case (fontName file : string) :
  validName file = true ->
  JS.toLowerCase (extname file) = extname file ->
  matchesFont fontName file = String.eqb (stem file) fontName && allowListed file.
Proof.
  intros Hvalid Hlower. unfold matchesFont. fold (allowListed file).
  destruct (allowListed file) eqn:Hallow; [|now rewrite !andb_false_r].
  rewrite Hlower.
  destruct (basename_extname file) as [-> _]; [|now apply allowListed_extname|reflexivity].
  now apply validName_inv in Hvalid.
Qed.

(** A name that is neither the stem of a plain file name nor the file name
    itself does not match it. *)
Lemma matchesFont_neither (fontName file : string) :
  validName file = true ->
  (allowListed file = true -> stem file <> fontName /\ file <> fontName) ->
  matchesFont fontName file = false.
Proof.
  intros Hvalid Hname. unfold matchesFont. fold (allowListed file).
  destruct (allowListed file) eqn:Hallow; [|apply andb_false_r].
  rewrite andb_true_r. apply String.eqb_neq.
  destruct (Hname eq_refl) as [Hstem Hfile].
  apply validName_inv in Hvalid as (_ & _ & _ & Hslash).
  destruct (basename_lower_extname file Hslash (allowListed_extname file Hallow)) as [-> | ->];
    assumption.
Qed.

(** ** The file system *)

Lemma lookup_replace_same (p : Path) (n : FS.Node) (l : list (Path * FS.Node)) :
  FS.lookup p l <> None -> FS.lookup p (FS.replace p n l) = Some n.
Proof.
  induction l as [|[q m] l IH]; simpl; [congruence|].
  destruct (FS.path_eqb q p) eqn:E; simpl; rewrite E; auto.
Qed.

Lemma lookup_replace_other (p q : Path) (n : FS.Node) (l : list (Path * FS.Node)) :
  q <> p -> FS.lookup q (FS.replace p n l) = FS.lookup q l.
Proof.
  intro H. induction l as [|[r m] l IH]; simpl; [reflexivity|].
  destruct (FS.path_eqb r p) eqn:E; simpl.
  - apply path_eqb_eq in E; subst r.
    rewrite (path_eqb_neq p q) by congruence. reflexivity.
  - now rewrite IH.
Qed.

Lemma lookup_app (p : Path) (l l' : list (Path * FS.Node)) :
  FS.lookup p (l ++ l') =
  match FS.lookup p l with Some n => Some n | None => FS.lookup p l' end.
Proof.
  induction l as [|[q m] l IH]; simpl; [reflexivity|].
  now destruct (FS.path_eqb q p).
Qed.

Lemma lookup_remove_same (p : Path) (l : list (Path * FS.Node)) :
  FS.lookup p (FS.remove p l) = None.
Proof.
  induction l as [|[q m] l IH]; simpl; [reflexivity|].
  destruct (FS.path_eqb q p) eqn:E; simpl; [assumption|now rewrite E].
Qed.

Lemma lookup_remove_other (p q : Path) (l : list (Path * FS.Node)) :
  q <> p -> FS.lookup q (FS.remove p l) = FS.lookup q l.
Proof.
  intro H. induction l as [|[r m] l IH]; simpl; [reflexivity|].
  destruct (FS.path_eqb r p) eqn:E; simpl.
  - apply path_eqb_eq in E; subst r.
    rewrite (path_eqb_neq p q) by congruence. assumption.
  - now rewrite IH.
Qed.

Lemma nodeAt_nonempty (fs : FS.t) (p : Path) :
  p <> [] -> FS.nodeAt fs p = FS.lookup p (FS.nodes fs).
Proof. destruct p; [congruence|reflexivity]. Qed.

Lemma nodeAt_withNodes (fs : FS.t) (l : list (Path * FS.Node)) (p : Path) :
  p <> [] -> FS.nodeAt (FS.withNodes fs l) p = FS.lookup p l.
Proof. destruct p; [congruence|reflexivity]. Qed.

(** What a successful [writeFile] leaves behind. *)
Lemma writeFile_Ok (fs fs' : FS.t) (p : Path) (data : list Byte.byte) :
  FS.writeFile fs p data = Ok fs' ->
  FS.readFile fs' p = Some data
  /\ (forall q, q <> p -> FS.nodeAt fs' q = FS.nodeAt fs q)
  /\ FS.cwd fs' = FS.cwd fs /\ FS.denied fs' = FS.denied fs.
Proof.
  unfold FS.writeFile, FS.readFile.
  destruct (FS.hasNullByte p); [discriminate|].
  destruct (Nat.leb FS.PATH_MAX (FS.pathBytes p)); [discriminate|].
  destruct (FS.isDenied fs Sopen p); [discriminate|].
  destruct (FS.obstacle fs [] p); [discriminate|].
  assert (Hp : FS.nodeAt fs p <> Some FS.Dir -> p <> [])
    by (intros H ->; now apply H).
  assert (Hother : forall l q, q <> p ->
            (q <> [] -> FS.lookup q l = FS.lookup q (FS.nodes fs)) ->
            FS.nodeAt (FS.withNodes fs l) q = FS.nodeAt fs q).
  { intros l q _ Hq. destruct q; [reflexivity|]. apply Hq. discriminate. }
  destruct (FS.nodeAt fs p) as [[content|]|] eqn:E; try discriminate.
  - assert (Hne : p <> []) by (apply Hp; discriminate).
    intros [= <-]. rewrite nodeAt_withNodes by assumption.
    rewrite nodeAt_nonempty in E by assumption.
    rewrite lookup_replace_same by congruence.
    repeat split. intros q Hq. apply Hother; [assumption|].
    intros _. now apply lookup_replace_other.
  - assert (Hne : p <> []) by (apply Hp; discriminate).
    intros [= <-]. rewrite nodeAt_withNodes by assumption.
    rewrite nodeAt_nonempty in E by assumption.
    rewrite lookup_app, E. simpl. rewrite path_eqb_refl.
    repeat split. intros q Hq. apply Hother; [assumption|].
    intros _. rewrite lookup_app. simpl.
    destruct (FS.lookup q (FS.nodes fs)); [reflexivity|].
    rewrite (path_eqb_neq p q) by congruence. reflexivity.
Qed.

Lemma obstacle_cons (fs : FS.t) (above below : Path) (seg next : string) :
  FS.obstacle fs above (seg :: next :: below) =
  if Nat.ltb FS.NAME_MAX (FS.utf8Length seg) then Some ENAMETOOLONG
  else match FS.nodeAt fs (above ++ [seg]) with
       | Some FS.Dir => FS.obstacle fs (above ++ [seg]) (next :: below)
       | Some (FS.File _) => Some ENOTDIR
       | None => Some ENOENT
       end.
Proof. reflexivity. Qed.

(** A walk that meets no obstacle has found a directory at every component
    before the last. *)
Lemma obstacle_None (fs : FS.t) (above mid : Path) (file : string) :
  FS.obstacle fs above (mid ++ [file]) = None ->
  mid <> [] ->
  FS.nodeAt fs (above ++ mid) = Some FS.Dir.
Proof.
  revert above. induction mid as [|seg mid IH]; intros above Hwalk Hne; [congruence|].
  assert (Hstep : FS.nodeAt fs (above ++ [seg]) = Some FS.Dir
                  /\ (mid <> [] -> FS.obstacle fs (above ++ [seg]) (mid ++ [file]) = None)).
  { destruct mid as [|seg' mid]; cbn [app] in Hwalk; rewrite obstacle_cons in Hwalk;
      destruct (Nat.ltb FS.NAME_MAX (FS.utf8Length seg)); try discriminate;
      destruct (FS.nodeAt fs (above ++ [seg])) as [[content|]|]; try discriminate;
      split; [reflexivity|congruence|reflexivity|intros _; exact Hwalk]. }
  destruct Hstep as [Hseg Hrest].
  destruct mid as [|seg' mid]; [exact Hseg|].
  change (above ++ seg :: seg' :: mid) with (above ++ [seg] ++ seg' :: mid).
  rewrite app_assoc. apply IH; [|discriminate]. apply Hrest. discriminate.
Qed.

(** The refusals of [writeFile] in a directory that holds the file
    [arial.ttf] and the directory [icons.svg], and the longest name taken. *)
Example writeFile_refusals :
  let fs := fs Examples.mixed in
  let long n := Examples.inFonts (String.concat "" (repeat "a" n) ++ ".ttf") in
  FS.writeFile fs (Examples.inFonts "icons.svg") Examples.ABC
  = Throw (IOError EISDIR Sopen (Examples.inFonts "icons.svg"))
  /\ FS.writeFile fs ["data"; "fonts"; "arial.ttf"; "x.ttf"] Examples.ABC
     = Throw (IOError ENOTDIR Sopen ["data"; "fonts"; "arial.ttf"; "x.ttf"])
  /\ FS.writeFile fs ["data"; "fonts"; "arial.ttf"; "sub"; "x.ttf"] Examples.ABC
     = Throw (IOError ENOTDIR Sopen ["data"; "fonts"; "arial.ttf"; "sub"; "x.ttf"])
  /\ FS.writeFile fs ["data"; "fonts"; "sub"; "x.ttf"] Examples.ABC
     = Throw (IOError ENOENT Sopen ["data"; "fonts"; "sub"; "x.ttf"])
  /\ FS.writeFile fs ["data"; "fonts"; "icons.svg"; "sub"; "x.ttf"] Examples.ABC
     = Throw (IOError ENOENT Sopen ["data"; "fonts"; "icons.svg"; "sub"; "x.ttf"])
  /\ isOk (FS.writeFile fs (long 251) Examples.ABC) = true
  /\ FS.writeFile fs (long 252) Examples.ABC
     = Throw (IOError ENAMETOOLONG Sopen (long 252))
  /\ FS.writeFile fs ["data"; "fonts"; "sub"; last (long 252) ""] Examples.ABC
     = Throw (IOError ENOENT Sopen ["data"; "fonts"; "sub"; last (long 252) ""])
  /\ FS.writeFile fs ("data" :: repeat (last (long 196) "") 21) Examples.ABC
     = Throw (IOError ENAMETOOLONG Sopen ("data" :: repeat (last (long 196) "") 21))
  /\ FS.writeFile fs (Examples.inFonts (String zero "a.ttf")) Examples.ABC
     = Throw (InvalidArgValueError (Examples.inFonts (String zero "a.ttf"))).
Proof. repeat split; vm_compute; reflexivity. Qed.

(** ** [uploadFont] *)

Section Upload.

Context {S : FontsService}.

(** The run of [uploadFont], branch by branch. *)
Lemma uploadFont_run (w : World S) (file payload : string) :
  uploadFont file payload w =
  let ext := JS.toLowerCase (extname file) in
  let failed err w1 := snd (logger LError (MsgUploadFailed file) (Some err) w1) in
  if negb (JS.includes SUPPORTED_FORMATS ext) then
    (Throw (UnsupportedFormatError ext), failed (UnsupportedFormatError ext) w)
  else
    match match_data_url payload with
    | None => (Throw InvalidEncodingError, failed InvalidEncodingError w)
    | Some (_, body) =>
        let buffer := Buffer_from_base64 body in
        let filePath := pathResolve [fontRoot; file] w in
        match FS.writeFile (fs w) filePath buffer with
        | Throw err => (Throw err, failed err w)
        | Ok fs' =>
            let w1 := snd (logger LInfo (MsgUploadSucceeded file (List.length buffer)) None
                             (withFs w fs')) in
            match loadSingleFont fs' filePath (cache w) with
            | Throw err => (Throw err, failed err w1)
            | Ok c =>
                (Ok tt, snd (logger LInfo (MsgFontLoaded (basename file ext)) None
                               (withCache w1 c)))
            end
        end
    end.
Proof.
  unfold uploadFont, tryCatch, bind, ret, throw. cbv zeta.
  destruct (negb (JS.includes SUPPORTED_FORMATS (JS.toLowerCase (extname file))));
    [reflexivity|].
  destruct (match_data_url payload) as [[mime body]|]; [|reflexivity].
  unfold writeFile, glyphService_loadSingleFont.
  destruct (FS.writeFile (fs w) (pathResolve [fontRoot; file] w) (Buffer_from_base64 body))
    as [fs'|err]; [|reflexivity].
  cbn. destruct (loadSingleFont fs' _ (cache w)); reflexivity.
Qed.

(** C6: with an allow-listed extension, a payload outside the language of
    [data:<mime>;base64,<data>] makes [uploadFont] throw
    [InvalidEncodingError], and neither the file system nor the cache
    changes: no file is written. *)
Theorem uploadFont_rejects_malformed_payload (w : World S) (file payload : string) :
  JS.includes SUPPORTED_FORMATS (JS.toLowerCase (extname file)) = true ->
  ~ data_url_pattern payload ->
  fst (uploadFont file payload w) = Throw InvalidEncodingError
  /\ fs (snd (uploadFont file payload w)) = fs w
  /\ cache (snd (uploadFont file payload w)) = cache w.
Proof.
  intros Hext Hpat. apply match_data_url_None in Hpat.
  rewrite uploadFont_run. cbv zeta. rewrite Hext, Hpat. simpl. auto.
Qed.

(** C1, amended: once the extension is allow-listed, the payload matches
    and the write has succeeded, the written file stays whatever the cache
    load does, and [uploadFont] returns exactly when the load returns: an
    error raised by [loadSingleFont] is thrown again to the caller. *)
Theorem uploadFont_result_follows_cache_load
  (w : World S) (file payload mime body : string) (fs' : FS.t) :
  JS.includes SUPPORTED_FORMATS (JS.toLowerCase (extname file)) = true ->
  match_data_url payload = Some (mime, body) ->
  FS.writeFile (fs w) (pathResolve [fontRoot; file] w) (Buffer_from_base64 body) = Ok fs' ->
  fs (snd (uploadFont file payload w)) = fs'
  /\ fst (uploadFont file payload w) =
       match loadSingleFont fs' (pathResolve [fontRoot; file] w) (cache w) with
       | Ok _ => Ok tt
       | Throw err => Throw err
       end.
Proof.
  intros Hext Hpat Hwrite.
  rewrite uploadFont_run. cbv zeta. rewrite Hext, Hpat, Hwrite. simpl.
  destruct (loadSingleFont fs' _ (cache w)); simpl; auto.
Qed.

(** C9: a successful [uploadFont] was given a payload that reads [data:],
    a media type without [;], [;base64,] and a body; afterwards the file at
    the resolved target holds the base64 decoding of that body, the text
    after the first [;base64,], whatever was there before, and no other path
    has changed; for a plain file name the target is the entry of that name
    in the storage directory. *)
Theorem uploadFont_round_trip (w : World S) (file payload : string) :
  fst (uploadFont file payload w) = Ok tt ->
  exists mime body,
    payload = ("data:" ++ mime ++ ";base64," ++ body)%string
    /\ mime <> "" /\ anyChar (Ascii.eqb ";") mime = false
    /\ body <> "" /\ anyChar isLineTerminator body = false
    /\ FS.readFile (fs (snd (uploadFont file payload w))) (pathResolve [fontRoot; file] w)
       = Some (Buffer_from_base64 body)
    /\ (forall q, q <> pathResolve [fontRoot; file] w ->
          FS.nodeAt (fs (snd (uploadFont file payload w))) q = FS.nodeAt (fs w) q)
    /\ (validName file = true ->
        pathResolve [fontRoot; file] w = pathResolve [fontRoot] w ++ [file]).
Proof.
  rewrite uploadFont_run. cbv zeta.
  destruct (negb (JS.includes SUPPORTED_FORMATS (JS.toLowerCase (extname file))));
    [discriminate|].
  destruct (match_data_url payload) as [[mime body]|] eqn:Hpat; [|discriminate].
  destruct (FS.writeFile (fs w) (pathResolve [fontRoot; file] w) (Buffer_from_base64 body))
    as [fs'|err] eqn:Hwrite; [|discriminate].
  destruct (loadSingleFont fs' _ (cache w)); [|discriminate].
  intros _. exists mime, body. simpl.
  apply match_data_url_Some in Hpat as (Hshape & Hmime & Hsemi & Hbody & Hline).
  destruct (writeFile_Ok _ _ _ _ Hwrite) as (Hread & Hother & _).
  repeat split; try assumption.
  intro Hname. unfold pathResolve. now apply resolve_child.
Qed.

(** A file name whose extension is not supported is refused with
    [UnsupportedFormatError] before anything is written. *)
Theorem uploadFont_rejects_unsupported_extension (w : World S) (file payload : string) :
  JS.includes SUPPORTED_FORMATS (JS.toLowerCase (extname file)) = false ->
  fst (uploadFont file payload w)
  = Throw (UnsupportedFormatError (JS.toLowerCase (extname file)))
  /\ fs (snd (uploadFont file payload w)) = fs w
  /\ cache (snd (uploadFont file payload w)) = cache w.
Proof.
  intros Hext. rewrite uploadFont_run. cbv zeta. rewrite Hext. simpl. auto.
Qed.

(** [uploadFont] checks the extension and the payload and nothing else: the
    write goes to the resolved path wherever that lies. *)
Lemma uploadFont_writes_resolved_target (w : World S) (file payload mime body : string) :
  JS.includes SUPPORTED_FORMATS (JS.toLowerCase (extname file)) = true ->
  match_data_url payload = Some (mime, body) ->
  fs (snd (uploadFont file payload w)) =
  match FS.writeFile (fs w) (pathResolve [fontRoot; file] w) (Buffer_from_base64 body) with
  | Ok fs' => fs'
  | Throw _ => fs w
  end.
Proof.
  intros Hext Hpat. rewrite uploadFont_run. cbv zeta. rewrite Hext, Hpat. simpl.
  destruct (FS.writeFile (fs w) _ _) as [fs'|err]; [|reflexivity].
  simpl. destruct (loadSingleFont fs' _ (cache w)); reflexivity.
Qed.

End Upload.

(** C3: the write target is the resolution of the file name against the
    storage root and is not checked against it; a name with a [..]
    component and an absolute name, both with an allow-listed extension,
    make a successful [uploadFont] write the decoded bytes outside the
    storage directory. *)
Theorem uploadFont_escapes_storage_directory :
  (forall (S : FontsService) (w : World S) (file payload mime body : string),
      JS.includes SUPPORTED_FORMATS (JS.toLowerCase (extname file)) = true ->
      match_data_url payload = Some (mime, body) ->
      fs (snd (uploadFont file payload w)) =
      match FS.writeFile (fs w) (pathResolve [fontRoot; file] w) (Buffer_from_base64 body) with
      | Ok fs' => fs'
      | Throw _ => fs w
      end)
  /\ (forall kind : bool,
        exists (S : FontsService) (w : World S) (file payload mime body : string),
          (if kind then In ".." (split file) else isAbsolute file = true)
          /\ JS.includes SUPPORTED_FORMATS (JS.toLowerCase (extname file)) = true
          /\ match_data_url payload = Some (mime, body)
          /\ FS.wf (fs w) = true
          /\ fst (uploadFont file payload w) = Ok tt
          /\ FS.inside (pathResolve [fontRoot] w) (pathResolve [fontRoot; file] w) = false
          /\ FS.readFile (fs (snd (uploadFont file payload w)))
               (pathResolve [fontRoot; file] w) = Some (Buffer_from_base64 body)).
Proof.
  split.
  - intros S w file payload mime body. apply uploadFont_writes_resolved_target.
  - intros [|].
    + exists Examples.svc, Examples.empty, "../evil.ttf", "data:font/ttf;base64,QUJD",
        "font/ttf", "QUJD".
      repeat split; try (vm_compute; reflexivity).
      vm_compute. auto.
    + exists Examples.svc, Examples.empty, "/data/evil.ttf", "data:font/ttf;base64,QUJD",
        "font/ttf", "QUJD".
      repeat split; vm_compute; reflexivity.
Qed.

(** C1, as stated, fails: the write succeeds, [loadSingleFont] rejects, and
    [uploadFont] throws. *)
Lemma uploadFont_cache_failure_is_not_swallowed :
  JS.includes SUPPORTED_FORMATS (JS.toLowerCase (extname "noto.otf")) = true
  /\ match_data_url "data:font/otf;base64,QUJD" = Some ("font/otf", "QUJD")
  /\ isOk (FS.writeFile (fs Examples.emptyRejecting)
             (pathResolve [@fontRoot Examples.svcRejecting; "noto.otf"]
                Examples.emptyRejecting)
             (Buffer_from_base64 "QUJD")) = true
  /\ fst (uploadFont "noto.otf" "data:font/otf;base64,QUJD" Examples.emptyRejecting)
     = Throw (ServiceError "font data rejected")
  /\ fst (uploadFont "noto.otf" "data:font/otf;base64,QUJD" Examples.emptyRejecting)
     <> Ok tt.
Proof.
  repeat split; try (vm_compute; reflexivity).
  vm_compute. discriminate.
Qed.

(** ** Reading the storage directory *)

Lemma childName_Some (dir p : Path) (n : string) :
  FS.childName dir p = Some n <-> p = dir ++ [n].
Proof.
  revert p; induction dir as [|d dir IH]; intros p; simpl.
  - destruct p as [|a [|b p]]; split; intro H; try discriminate;
      try (injection H as ->; reflexivity); injection H as ->; reflexivity.
  - destruct p as [|a p]; [split; discriminate|].
    destruct (String.eqb d a) eqn:E.
    + apply String.eqb_eq in E; subst a. rewrite IH.
      split; [now intros -> | now intros [= ->]].
    + split; [discriminate|]. intros [= <- _]. now rewrite String.eqb_refl in E.
Qed.

Lemma In_childNames (dir : Path) (l : list (Path * FS.Node)) (n : string) :
  In n (FS.childNames dir l) <-> In (dir ++ [n]) (map fst l).
Proof.
  induction l as [|[p m] l IH]; simpl; [tauto|].
  destruct (FS.childName dir p) as [k|] eqn:E.
  - apply childName_Some in E; subst p. simpl. rewrite IH. split.
    + intros [->|H]; auto.
    + intros [H|H]; auto. apply app_inj_tail in H as [_ ->]. auto.
  - rewrite IH. split; [auto|]. intros [H|H]; [|assumption].
    exfalso. apply childName_Some in H. congruence.
Qed.

Lemma existsb_path_eqb (p : Path) (l : list Path) :
  existsb (FS.path_eqb p) l = true <-> In p l.
Proof.
  rewrite existsb_exists. split.
  - intros (q & Hq & E). apply path_eqb_eq in E. now subst.
  - intro H. exists p. split; [assumption|apply path_eqb_refl].
Qed.

Lemma noDupPaths_NoDup (l : list Path) : FS.noDupPaths l = true -> NoDup l.
Proof.
  induction l as [|p l IH]; simpl; intro H; constructor.
  - apply andb_true_iff in H as [H _]. apply negb_true_iff in H.
    intro Hin. apply existsb_path_eqb in Hin. congruence.
  - apply IH. now apply andb_true_iff in H as [_ H].
Qed.

Lemma NoDup_childNames (dir : Path) (l : list (Path * FS.Node)) :
  NoDup (map fst l) -> NoDup (FS.childNames dir l).
Proof.
  induction l as [|[p m] l IH]; simpl; intro H; [constructor|].
  inversion H as [|? ? Hnotin Hrest]; subst.
  destruct (FS.childName dir p) as [k|] eqn:E; [|now apply IH].
  apply childName_Some in E; subst p. constructor; [|now apply IH].
  now rewrite In_childNames.
Qed.

Lemma readdir_Ok (fs : FS.t) (dir : Path) (files : list string) :
  FS.readdir fs dir = Ok files -> files = FS.childNames dir (FS.nodes fs).
Proof.
  unfold FS.readdir. destruct (FS.isDenied fs Sscandir dir); [discriminate|].
  destruct (FS.nodeAt fs dir) as [[c|]|]; try discriminate. now intros [= <-].
Qed.

(** The names that [readdir] returns in a well-formed file system: each one
    once, each one a plain name, each one the name of a node of the directory. *)
Lemma readdir_wf (fs : FS.t) (dir : Path) (files : list string) :
  FS.wf fs = true ->
  FS.readdir fs dir = Ok files ->
  NoDup files
  /\ (forall file, In file files ->
        validName file = true /\ FS.lookup (dir ++ [file]) (FS.nodes fs) <> None).
Proof.
  intros Hwf Hread. apply readdir_Ok in Hread; subst files.
  unfold FS.wf in Hwf. apply andb_true_iff in Hwf as [Hnodup Hnames].
  split.
  - apply NoDup_childNames. now apply noDupPaths_NoDup.
  - intros file Hin. apply In_childNames in Hin. split.
    + rewrite forallb_forall in Hnames. specialize (Hnames _ Hin).
      rewrite forallb_app in Hnames. apply andb_true_iff in Hnames as [_ H].
      simpl in H. now rewrite andb_true_r in H.
    + clear - Hin. induction (FS.nodes fs) as [|[q m] l IH]; simpl in *; [tauto|].
      destruct (FS.path_eqb q (dir ++ [file])) eqn:E; [discriminate|].
      destruct Hin as [H|H]; [|auto].
      subst q. now rewrite path_eqb_refl in E.
Qed.

Lemma stat_Ok (fs : FS.t) (p : Path) (st : FS.Stats) :
  FS.stat fs p = Ok st ->
  (exists content, FS.nodeAt fs p = Some (FS.File content)
                   /\ FS.isDirectory st = false /\ FS.size st = List.length content)
  \/ (FS.nodeAt fs p = Some FS.Dir /\ FS.isDirectory st = true).
Proof.
  unfold FS.stat. destruct (FS.isDenied fs Sstat p); [discriminate|].
  destruct (FS.nodeAt fs p) as [[content|]|]; try discriminate; intros [= <-].
  - left. now exists content.
  - now right.
Qed.

(** ** [listFonts] *)

Section Listing.

Context {S : FontsService}.

(** C8: [listFonts] returns on every world; when the storage directory
    cannot be read it returns the empty array, and the error goes to the
    log and nowhere else. *)
Theorem listFonts_never_throws (w : World S) :
  (exists fonts w', listFonts w = (Ok fonts, w'))
  /\ (forall err,
        FS.readdir (fs w) (pathResolve [fontRoot] w) = Throw err ->
        listFonts w =
        (Ok [], {| fs := fs w; cache := cache w;
                   log := log w ++ [{| level := LError; message := MsgReadFontDirFailed;
                                       cause := Some err |}] |})).
Proof.
  unfold listFonts. split.
  - destruct (FS.readdir (fs w) (pathResolve [fontRoot] w)) as [files|err].
    + destruct (listFonts_for w files []) as [fonts [u|err]]; eauto.
    + eauto.
  - intros err ->. reflexivity.
Qed.

(** The loop of [listFonts] when every [stat] succeeds: it adds one entry
    per regular file with a supported extension, in order. *)
Lemma listFonts_for_Ok (w : World S) (files : list string) (fonts : list GlyphFont) :
  (forall file, In file files -> validName file = true) ->
  (forall file, In file files ->
     isOk (FS.stat (fs w) (pathResolve [fontRoot; file] w)) = true) ->
  exists added,
    listFonts_for w files fonts = (fonts ++ added, Ok tt)
    /\ map fileName added =
       filter (fun file => allowListed file
                           && FS.isRegularFile (fs w) (pathResolve [fontRoot] w ++ [file])) files
    /\ Forall (fun font =>
                 format font = JS.sliceFrom (JS.toLowerCase (extname (fileName font))) 1
                 /\ path font = pathResolve [fontRoot] w ++ [fileName font]
                 /\ (exists content,
                       FS.nodeAt (fs w) (path font) = Some (FS.File content)
                       /\ size font = List.length content)
                 /\ name font
                    = basename (fileName font) (JS.toLowerCase (extname (fileName font)))
                 /\ validName (fileName font) = true
                 /\ allowListed (fileName font) = true) added.
Proof.
  revert fonts. induction files as [|file rest IH]; intros fonts Hnames Hstat.
  - exists []. simpl. rewrite app_nil_r. auto.
  - assert (Hpath : pathResolve [fontRoot; file] w = pathResolve [fontRoot] w ++ [file])
      by (apply resolve_child, Hnames; now left).
    assert (Hnames' : forall f, In f rest -> validName f = true)
      by (intros; apply Hnames; now right).
    assert (Hstat' : forall f, In f rest ->
                isOk (FS.stat (fs w) (pathResolve [fontRoot; f] w)) = true)
      by (intros; apply Hstat; now right).
    specialize (Hstat file (or_introl eq_refl)).
    cbn [listFonts_for filter]. unfold allowListed at 1.
    destruct (JS.includes SUPPORTED_FORMATS (JS.toLowerCase (extname file))) eqn:Hext;
      cbn [negb andb]; [|now apply IH].
    destruct (FS.stat (fs w) (pathResolve [fontRoot; file] w)) as [st|err] eqn:Est;
      [|discriminate].
    unfold FS.isRegularFile at 1. rewrite <- Hpath.
    destruct (stat_Ok _ _ _ Est) as [(content & Hnode & Hdir & Hsize)|[Hnode Hdir]];
      rewrite Hnode, Hdir; [|now apply IH].
    match goal with
    | |- context [listFonts_for w rest (fonts ++ [?e])] =>
        destruct (IH (fonts ++ [e]) Hnames' Hstat') as (added & Hrun & Hmap & Hall);
        exists (e :: added)
    end.
    rewrite Hrun, <- app_assoc. cbn [map fileName]. rewrite Hmap.
    repeat split. constructor; [|assumption].
    cbn [format fileName path size name].
    repeat split; try assumption; [|apply Hnames; now left].
    rewrite Hnode, Hsize. eauto.
Qed.

(** C4: when the directory can be read and every entry can be stat-ed,
    [listFonts] returns exactly one entry per regular file of the storage
    directory whose extension, lower-cased, is supported: the file names of
    the entries are those files, each once and in enumeration order, the
    format is the lower-cased extension without its dot and the size is the
    byte length of the file. Directories and other extensions are left out. *)
Theorem listFonts_one_entry_per_font_file (w : World S) (files : list string) :
  FS.wf (fs w) = true ->
  FS.readdir (fs w) (pathResolve [fontRoot] w) = Ok files ->
  (forall file, In file files ->
     isOk (FS.stat (fs w) (pathResolve [fontRoot; file] w)) = true) ->
  exists fonts,
    listFonts w = (Ok fonts, w)
    /\ NoDup files
    /\ map fileName fonts =
       filter (fun file => allowListed file
                           && FS.isRegularFile (fs w) (pathResolve [fontRoot] w ++ [file])) files
    /\ Forall (fun font =>
                 format font = JS.sliceFrom (JS.toLowerCase (extname (fileName font))) 1
                 /\ path font = pathResolve [fontRoot] w ++ [fileName font]
                 /\ exists content,
                      FS.nodeAt (fs w) (path font) = Some (FS.File content)
                      /\ size font = List.length content) fonts.
Proof.
  intros Hwf Hread Hstat.
  destruct (readdir_wf _ _ _ Hwf Hread) as [Hnodup Hnames].
  destruct (listFonts_for_Ok w files [] (fun f H => proj1 (Hnames f H)) Hstat)
    as (added & Hrun & Hmap & Hall).
  exists added. unfold listFonts. rewrite Hread, Hrun. repeat split; try assumption.
  revert Hall. apply Forall_impl. intros font H. tauto.
Qed.

(** Where the extension is written in lower case on disk, the [name] of the
    entry is the stem of the file. *)
Theorem listFonts_name_is_stem_for_lower_case_extension
  (w : World S) (files : list string) :
  FS.wf (fs w) = true ->
  FS.readdir (fs w) (pathResolve [fontRoot] w) = Ok files ->
  (forall file, In file files ->
     isOk (FS.stat (fs w) (pathResolve [fontRoot; file] w)) = true) ->
  exists fonts,
    listFonts w = (Ok fonts, w)
    /\ Forall (fun font =>
                 JS.toLowerCase (extname (fileName font)) = extname (fileName font) ->
                 name font = stem (fileName font)) fonts.
Proof.
  intros Hwf Hread Hstat.
  destruct (readdir_wf _ _ _ Hwf Hread) as [Hnodup Hnames].
  destruct (listFonts_for_Ok w files [] (fun f H => proj1 (Hnames f H)) Hstat)
    as (added & Hrun & Hmap & Hall).
  exists added. unfold listFonts. rewrite Hread, Hrun. split; [reflexivity|].
  revert Hall. apply Forall_impl.
  intros font (_ & _ & _ & Hname & Hvalid & Hallow) Hlower.
  rewrite Hname, Hlower. apply basename_extname.
  - now apply validName_inv in Hvalid.
  - now apply allowListed_extname.
Qed.

End Listing.

(** ** [deleteFont] *)

Lemma unlink_Throw (fs : FS.t) (p : Path) (err : Error) :
  FS.unlink fs p = Throw err <-> FS.unlinkError fs p = Some err.
Proof.
  unfold FS.unlink. destruct (FS.unlinkError fs p); split; congruence.
Qed.

Lemma unlink_isOk (fs : FS.t) (p : Path) :
  isOk (FS.unlink fs p) = true <-> FS.unlinkError fs p = None.
Proof.
  unfold FS.unlink. destruct (FS.unlinkError fs p); simpl; split; congruence.
Qed.

Lemma unlinkError_remove_other (fs : FS.t) (p q : Path) :
  q <> p ->
  FS.unlinkError (FS.withNodes fs (FS.remove p (FS.nodes fs))) q = FS.unlinkError fs q.
Proof.
  intro H. unfold FS.unlinkError.
  change (FS.isDenied (FS.withNodes fs (FS.remove p (FS.nodes fs))) Sunlink q)
    with (FS.isDenied fs Sunlink q).
  destruct q as [|a q]; [reflexivity|].
  rewrite nodeAt_withNodes, nodeAt_nonempty by discriminate.
  now rewrite lookup_remove_other.
Qed.

Lemma NoDup_app_disjoint {A} (l1 l2 : list A) (a : A) :
  NoDup (l1 ++ l2) -> In a l1 -> In a l2 -> False.
Proof.
  induction l1 as [|b l1 IH]; simpl; intros Hnd H1 H2; [contradiction|].
  inversion Hnd as [|? ? Hnotin Hnd']; subst. destruct H1 as [->|H1].
  - apply Hnotin, in_or_app. now right.
  - now apply IH.
Qed.

Section Deleting.

Context {S : FontsService}.

(** The loop of [deleteFont] over a first run of files that can all be
    removed: they are gone, one log entry each, nothing else has changed, and
    the loop goes on with the rest. *)
Lemma deleteFont_for_prefix (rest : list string) :
  forall (before : list string) (w : World S),
    NoDup (before ++ rest) ->
    (forall f, In f (before ++ rest) -> validName f = true) ->
    (forall f, In f before ->
       FS.unlinkError (fs w) (pathResolve [fontRoot; f] w) = None) ->
    exists w',
      deleteFont_for (before ++ rest) w = deleteFont_for rest w'
      /\ FS.cwd (fs w') = FS.cwd (fs w)
      /\ cache w' = cache w
      /\ log w' = log w ++ map deletedEntry before
      /\ (forall f, In f before ->
            FS.nodeAt (fs w') (pathResolve [fontRoot; f] w) = None)
      /\ (forall q, (forall f, In f before -> q <> pathResolve [fontRoot; f] w) ->
            FS.nodeAt (fs w') q = FS.nodeAt (fs w) q)
      /\ (forall f, In f rest ->
            FS.unlinkError (fs w') (pathResolve [fontRoot; f] w)
            = FS.unlinkError (fs w) (pathResolve [fontRoot; f] w)).
Proof.
  induction before as [|f before IH]; intros w Hnodup Hnames Hok.
  - exists w. cbn [app map]. rewrite app_nil_r. repeat split; simpl; tauto.
  - cbn [app] in Hnodup. inversion Hnodup as [|? ? Hnotin Hnodup']; subst.
    assert (Hdir : forall g, In g ((f :: before) ++ rest) ->
              pathResolve [fontRoot; g] w = pathResolve [fontRoot] w ++ [g])
      by (intros g Hg; apply resolve_child, Hnames, Hg).
    assert (Hdiff : forall g, In g (before ++ rest) ->
              pathResolve [fontRoot; g] w <> pathResolve [fontRoot; f] w).
    { intros g Hg E. rewrite (Hdir g), (Hdir f) in E by (simpl; auto).
      apply app_inj_tail in E as [_ ->]. contradiction. }
    pose (w1 := snd (logger LInfo (MsgFontFileDeleted f) None
                       (withFs w (FS.withNodes (fs w)
                          (FS.remove (pathResolve [fontRoot; f] w) (FS.nodes (fs w))))))).
    destruct (IH w1) as (w' & Hrun & Hcwd & Hcache & Hlog & Hgone & Hkept & Hrest).
    + assumption.
    + intros g Hg. apply Hnames. now right.
    + intros g Hg. unfold w1. cbn [snd logger fs withFs].
      change (pathResolve [fontRoot; g] _) with (pathResolve [fontRoot; g] w).
      rewrite unlinkError_remove_other by (apply Hdiff, in_or_app; now left).
      apply Hok. now right.
    + assert (Hne : pathResolve [fontRoot; f] w <> [])
        by (rewrite Hdir by (simpl; auto); now destruct (pathResolve [fontRoot] w)).
      exists w'. cbn [app deleteFont_for]. unfold bind at 1 2, unlink, FS.unlink.
      rewrite (Hok f (or_introl eq_refl)). fold w1.
      change (logger LInfo (MsgFontFileDeleted f) None
                (withFs w (FS.withNodes (fs w)
                   (FS.remove (pathResolve [fontRoot; f] w) (FS.nodes (fs w))))))
        with (Ok tt, w1).
      cbv beta iota. rewrite Hrun. repeat split.
      * exact Hcwd.
      * exact Hcache.
      * rewrite Hlog. unfold w1. cbn [snd logger log withFs map].
        now rewrite <- app_assoc.
      * intros g [<-|Hg].
        -- rewrite Hkept.
           ++ unfold w1. cbn [snd logger fs withFs].
              rewrite nodeAt_withNodes by assumption. apply lookup_remove_same.
           ++ intros g Hg. change (pathResolve [fontRoot; g] w1)
                with (pathResolve [fontRoot; g] w).
              intro E. symmetry in E. revert E. apply Hdiff, in_or_app. now left.
        -- apply (Hgone g Hg).
      * intros q Hq. rewrite Hkept.
        -- unfold w1. cbn [snd logger fs withFs].
           destruct q as [|a q]; [reflexivity|].
           rewrite nodeAt_withNodes, nodeAt_nonempty by discriminate.
           apply lookup_remove_other. apply Hq. now left.
        -- intros g Hg. apply (Hq g). now right.
      * intros g Hg.
        change (pathResolve [fontRoot; g] w) with (pathResolve [fontRoot; g] w1).
        rewrite (Hrest g Hg). unfold w1. cbn [snd logger fs withFs].
        change (pathResolve [fontRoot; g] _) with (pathResolve [fontRoot; g] w).
        apply unlinkError_remove_other, Hdiff, in_or_app. now right.
Qed.

(** The loop of [deleteFont] up to the first file that cannot be removed. *)
Lemma deleteFont_for_stops (file : string) (after : list string) (err : Error) :
  forall (before : list string) (w : World S),
    NoDup (before ++ file :: after) ->
    (forall f, In f (before ++ file :: after) -> validName f = true) ->
    (forall f, In f before ->
       FS.unlinkError (fs w) (pathResolve [fontRoot; f] w) = None) ->
    FS.unlinkError (fs w) (pathResolve [fontRoot; file] w) = Some err ->
    exists w',
      deleteFont_for (before ++ file :: after) w = (Throw err, w')
      /\ FS.cwd (fs w') = FS.cwd (fs w)
      /\ log w' = log w ++ map deletedEntry before
      /\ (forall f, In f before ->
            FS.nodeAt (fs w') (pathResolve [fontRoot; f] w) = None)
      /\ (forall q, (forall f, In f before -> q <> pathResolve [fontRoot; f] w) ->
            FS.nodeAt (fs w') q = FS.nodeAt (fs w) q).
Proof.
  intros before w Hnodup Hnames Hok Herr.
  destruct (deleteFont_for_prefix (file :: after) before w Hnodup Hnames Hok)
    as (w' & Hrun & Hcwd & Hcache & Hlog & Hgone & Hkept & Hrest).
  exists w'. rewrite Hrun. repeat split; try assumption.
  cbn [deleteFont_for]. unfold bind, unlink, FS.unlink, pathResolve. rewrite Hcwd.
  fold (pathResolve [fontRoot; file] w). rewrite (Hrest file (or_introl eq_refl)), Herr.
  reflexivity.
Qed.

(** The loop of [deleteFont] when every file can be removed. *)
Lemma deleteFont_for_all (files : list string) (w : World S) :
  NoDup files ->
  (forall f, In f files -> validName f = true) ->
  (forall f, In f files ->
     FS.unlinkError (fs w) (pathResolve [fontRoot; f] w) = None) ->
  exists w',
    deleteFont_for files w = (Ok tt, w')
    /\ cache w' = cache w
    /\ log w' = log w ++ map deletedEntry files
    /\ (forall f, In f files ->
          FS.nodeAt (fs w') (pathResolve [fontRoot; f] w) = None)
    /\ (forall q, (forall f, In f files -> q <> pathResolve [fontRoot; f] w) ->
          FS.nodeAt (fs w') q = FS.nodeAt (fs w) q).
Proof.
  intros Hnodup Hnames Hok.
  destruct (deleteFont_for_prefix [] files w) as (w' & Hrun & _ & Hcache & Hlog & Hgone & Hkept & _);
    rewrite ?app_nil_r; try assumption.
  exists w'. rewrite app_nil_r in Hrun. rewrite Hrun. repeat split; assumption.
Qed.

(** C7: the matching files are removed one after the other in enumeration
    order; at the first one whose removal fails the loop stops: the files
    before it are gone, that file and every file after it are still there,
    and the error of the failed removal is thrown to the caller. *)
Theorem deleteFont_stops_at_first_failure
  (w : World S) (fontName : string) (files before : list string) (file : string)
  (after : list string) (err : Error) :
  FS.wf (fs w) = true ->
  FS.readdir (fs w) (pathResolve [fontRoot] w) = Ok files ->
  filter (matchesFont fontName) files = before ++ file :: after ->
  (forall f, In f before ->
     isOk (FS.unlink (fs w) (pathResolve [fontRoot; f] w)) = true) ->
  FS.unlink (fs w) (pathResolve [fontRoot; file] w) = Throw err ->
  fst (deleteFont fontName w) = Throw err
  /\ (forall f, In f before ->
        FS.nodeAt (fs (snd (deleteFont fontName w))) (pathResolve [fontRoot; f] w) = None)
  /\ (forall f, In f (file :: after) ->
        FS.nodeAt (fs (snd (deleteFont fontName w))) (pathResolve [fontRoot; f] w)
        = FS.nodeAt (fs w) (pathResolve [fontRoot; f] w)
        /\ FS.nodeAt (fs w) (pathResolve [fontRoot; f] w) <> None)
  /\ log (snd (deleteFont fontName w)) =
     log w ++ map deletedEntry before
       ++ [{| level := LError; message := MsgDeleteFontFailed fontName; cause := Some err |}].
Proof.
  intros Hwf Hread Hmatch Hok Herr.
  destruct (readdir_wf _ _ _ Hwf Hread) as [Hnodup Hnames].
  assert (Hsub : forall f, In f (before ++ file :: after) -> In f files).
  { intros f Hf. rewrite <- Hmatch in Hf. now apply filter_In in Hf. }
  assert (Hdir : forall f, In f (before ++ file :: after) ->
            pathResolve [fontRoot; f] w = pathResolve [fontRoot] w ++ [f])
    by (intros f Hf; apply resolve_child, Hnames, Hsub, Hf).
  assert (Hnd : NoDup (before ++ file :: after))
    by (rewrite <- Hmatch; now apply NoDup_filter).
  destruct (deleteFont_for_stops file after err before w)
    as (w' & Hrun & Hcwd & Hlog & Hgone & Hkept).
  - assumption.
  - intros f Hf. now apply Hnames, Hsub.
  - intros f Hf. now apply unlink_isOk, Hok.
  - now apply unlink_Throw.
  - assert (Hdel : deleteFont fontName w =
                   (Throw err, snd (logger LError (MsgDeleteFontFailed fontName) (Some err) w'))).
    { unfold deleteFont, tryCatch, bind at 1, readdir. rewrite Hread, Hmatch, Hrun.
      reflexivity. }
    rewrite Hdel. cbn [fst snd logger fs log]. repeat split.
    + now apply Hgone.
    + rewrite Hkept; [reflexivity|].
      intros g Hg E. rewrite (Hdir f), (Hdir g) in E
        by (apply in_or_app; simpl; tauto).
      apply app_inj_tail in E as [_ ->].
      now apply (NoDup_app_disjoint _ _ _ Hnd Hg).
    + rewrite Hdir by (apply in_or_app; simpl; tauto).
      rewrite nodeAt_nonempty by now destruct (pathResolve [fontRoot] w).
      apply Hnames, Hsub, in_or_app. simpl. tauto.
    + rewrite Hlog. now rewrite <- app_assoc.
Qed.

(** Where every extension of the directory is written in lower case,
    [deleteFont] removes exactly the files whose stem is the name and whose
    extension is supported, provided each of them can be removed. *)
Theorem deleteFont_removes_the_stem_for_lower_case_extensions
  (w : World S) (fontName : string) (files : list string) :
  FS.wf (fs w) = true ->
  FS.readdir (fs w) (pathResolve [fontRoot] w) = Ok files ->
  (forall f, In f files -> JS.toLowerCase (extname f) = extname f) ->
  (forall f, In f files -> stem f = fontName -> allowListed f = true ->
     isOk (FS.unlink (fs w) (pathResolve [fontRoot; f] w)) = true) ->
  fst (deleteFont fontName w) = Ok tt
  /\ (forall f, In f files -> stem f = fontName -> allowListed f = true ->
        FS.nodeAt (fs (snd (deleteFont fontName w))) (pathResolve [fontRoot; f] w) = None)
  /\ (forall f, In f files -> ~ (stem f = fontName /\ allowListed f = true) ->
        FS.nodeAt (fs (snd (deleteFont fontName w))) (pathResolve [fontRoot; f] w)
        = FS.nodeAt (fs w) (pathResolve [fontRoot; f] w))
  /\ (forall q, (forall f, In f files -> q <> pathResolve [fontRoot; f] w) ->
        FS.nodeAt (fs (snd (deleteFont fontName w))) q = FS.nodeAt (fs w) q).
Proof.
  intros Hwf Hread Hlower Hok.
  destruct (readdir_wf _ _ _ Hwf Hread) as [Hnodup Hnames].
  assert (Hmatch : forall f, In f (filter (matchesFont fontName) files) <->
                     In f files /\ stem f = fontName /\ allowListed f = true).
  { intro f. rewrite filter_In. split.
    - intros [Hin Hm]. rewrite matchesFont_lower_case in Hm
        by (try apply Hnames; try apply Hlower; assumption).
      apply andb_true_iff in Hm as [Hs Ha]. apply String.eqb_eq in Hs. auto.
    - intros (Hin & Hs & Ha). split; [assumption|].
      rewrite matchesFont_lower_case by (try apply Hnames; try apply Hlower; assumption).
      apply andb_true_iff. split; [now apply String.eqb_eq|assumption]. }
  assert (Hdir : forall f, In f files ->
            pathResolve [fontRoot; f] w = pathResolve [fontRoot] w ++ [f])
    by (intros f Hf; apply resolve_child, Hnames, Hf).
  destruct (deleteFont_for_all (filter (matchesFont fontName) files) w)
    as (w' & Hrun & Hcache & Hlog & Hgone & Hkept).
  - now apply NoDup_filter.
  - intros f Hf. apply Hnames. now apply Hmatch in Hf.
  - intros f Hf. apply Hmatch in Hf as (Hin & Hs & Ha). now apply unlink_isOk, Hok.
  - assert (Hdel : deleteFont fontName w = (Ok tt, w')).
    { unfold deleteFont, tryCatch, bind at 1, readdir. rewrite Hread, Hrun. reflexivity. }
    rewrite Hdel. cbn [fst snd]. repeat split.
    + intros f Hin Hs Ha. apply Hgone, Hmatch. auto.
    + intros f Hin Hnot. apply Hkept. intros g Hg E.
      apply Hmatch in Hg as (Hgin & Hs & Ha).
      rewrite (Hdir f Hin), (Hdir g Hgin) in E. apply app_inj_tail in E as [_ ->]. auto.
    + intros q Hq. apply Hkept. intros g Hg. apply Hq. now apply Hmatch in Hg.
Qed.

End Deleting.

(** ** [loadFontOnDemand] *)

Section OnDemand.

Context {S : FontsService}.

(** The loop of [loadFontOnDemand] over files none of which the name
    matches: nothing is loaded, a warning is logged and [null] returned. *)
Lemma loadFontOnDemand_for_no_match (fontName : string) (files : list string) (w : World S) :
  (forall f, In f files -> matchesFont fontName f = false) ->
  loadFontOnDemand_for fontName files w =
  (Ok None,
   {| fs := fs w; cache := cache w;
      log := log w ++ [{| level := LWarn; message := MsgFontFileNotFound fontName;
                          cause := None |}] |}).
Proof.
  intros Hno. induction files as [|file rest IH]; [reflexivity|].
  cbn [loadFontOnDemand_for].
  pose proof (Hno file (or_introl eq_refl)) as E. unfold matchesFont in E.
  rewrite E. apply IH. intros f Hf. apply Hno. now right.
Qed.

(** [loadFontOnDemand] for a name that the cache does not hold and that
    matches no file of the storage directory: it returns [null], and only
    the log has changed. *)
Lemma loadFontOnDemand_no_match_run (w : World S) (fontName : string) :
  getFontInfo (cache w) fontName = None ->
  (forall files file,
     FS.readdir (fs w) (pathResolve [fontRoot] w) = Ok files ->
     In file files -> matchesFont fontName file = false) ->
  exists l, loadFontOnDemand fontName w
            = (Ok None, {| fs := fs w; cache := cache w; log := l |}).
Proof.
  intros Hcache Hno.
  unfold loadFontOnDemand, tryCatch, glyphService_getFontInfo.
  rewrite Hcache. cbn [option_map JS.truthy]. unfold bind at 1, readdir.
  destruct (FS.readdir (fs w) (pathResolve [fontRoot] w)) as [files|err] eqn:Hread;
    [|eexists; reflexivity].
  rewrite loadFontOnDemand_for_no_match; [eexists; reflexivity|].
  intros f Hf. now apply (Hno files).
Qed.

(** Where every extension in the storage directory is in lower case, a name
    that the cache does not hold and that is the stem of no file with a
    supported extension is answered with [null], whatever the font service
    does: no file is loaded, and neither the files nor the cache change. *)
Theorem loadFontOnDemand_absent_is_null_for_lower_case_extensions
  (w : World S) (fontName : string) :
  FS.wf (fs w) = true ->
  getFontInfo (cache w) fontName = None ->
  (forall files file,
     FS.readdir (fs w) (pathResolve [fontRoot] w) = Ok files ->
     In file files -> JS.toLowerCase (extname file) = extname file) ->
  (forall files file,
     FS.readdir (fs w) (pathResolve [fontRoot] w) = Ok files ->
     In file files -> allowListed file = true -> stem file <> fontName) ->
  fst (loadFontOnDemand fontName w) = Ok None
  /\ fs (snd (loadFontOnDemand fontName w)) = fs w
  /\ cache (snd (loadFontOnDemand fontName w)) = cache w.
Proof.
  intros Hwf Hcache Hlower Hstem.
  destruct (loadFontOnDemand_no_match_run w fontName Hcache) as [l ->]; [|cbn; auto].
  intros files f Hread Hf.
  destruct (readdir_wf _ _ _ Hwf Hread) as [_ Hnames].
  rewrite matchesFont_lower_case
    by (first [exact (proj1 (Hnames f Hf)) | exact (Hlower files f Hread Hf)]).
  destruct (allowListed f) eqn:Hallow; [|apply andb_false_r].
  rewrite andb_true_r. apply String.eqb_neq. now apply (Hstem files f).
Qed.

(** Whatever the case of the extensions: a name that the cache does not
    hold, that is the stem of no file with a supported extension and that
    is not itself the name of such a file, is answered with [null], whatever
    the font service does, and no file is loaded. *)
Theorem loadFontOnDemand_absent_is_null_unless_file_name
  (w : World S) (fontName : string) :
  FS.wf (fs w) = true ->
  getFontInfo (cache w) fontName = None ->
  (forall files file,
     FS.readdir (fs w) (pathResolve [fontRoot] w) = Ok files ->
     In file files -> allowListed file = true -> stem file <> fontName) ->
  (forall files file,
     FS.readdir (fs w) (pathResolve [fontRoot] w) = Ok files ->
     In file files -> allowListed file = true -> file <> fontName) ->
  fst (loadFontOnDemand fontName w) = Ok None
  /\ fs (snd (loadFontOnDemand fontName w)) = fs w
  /\ cache (snd (loadFontOnDemand fontName w)) = cache w.
Proof.
  intros Hwf Hcache Hstem Hfile.
  destruct (loadFontOnDemand_no_match_run w fontName Hcache) as [l ->]; [|cbn; auto].
  intros files f Hread Hf.
  destruct (readdir_wf _ _ _ Hwf Hread) as [_ Hnames].
  apply matchesFont_neither; [exact (proj1 (Hnames f Hf))|].
  intro Hallow. split; [now apply (Hstem files)|now apply (Hfile files)].
Qed.

(** A font that the cache holds with a data URL is answered from the cache:
    no directory is read, no file is loaded, and only the log grows. *)
Theorem loadFontOnDemand_cache_hit (w : World S) (fontName : string) (info : FontInfo.t) :
  getFontInfo (cache w) fontName = Some info ->
  FontInfo.dataUrl info <> "" ->
  loadFontOnDemand fontName w =
  (Ok (Some (FontInfo.dataUrl info)),
   {| fs := fs w; cache := cache w;
      log := log w ++ [{| level := LDebug; message := MsgAlreadyInMemory fontName;
                          cause := None |}] |}).
Proof.
  intros Hinfo Hurl. unfold loadFontOnDemand, tryCatch, glyphService_getFontInfo.
  rewrite Hinfo. cbn [option_map JS.truthy].
  apply String.eqb_neq in Hurl. rewrite Hurl. reflexivity.
Qed.

End OnDemand.

(** ** The services and worlds of the examples *)

(** The scenarios of the specification. *)
Example listFonts_arial :
  fst (listFonts (Examples.world Examples.svc []
                    [(Examples.inFonts "arial.ttf", FS.File (repeat Byte.x00 (100 * 100)))] []))
  = Ok [{| name := "arial"; fileName := "arial.ttf"; format := "ttf"; size := 100 * 100;
           path := ["data"; "fonts"; "arial.ttf"]; dataUrl := None |}].
Proof. vm_compute. reflexivity. Qed.

Example uploadFont_noto :
  fst (uploadFont "noto.otf" "data:font/otf;base64,QUJD" Examples.empty) = Ok tt
  /\ FS.readFile (fs (snd (uploadFont "noto.otf" "data:font/otf;base64,QUJD" Examples.empty)))
       (Examples.inFonts "noto.otf") = Some Examples.ABC.
Proof. split; vm_compute; reflexivity. Qed.

Example deleteFont_arial :
  fst (deleteFont "arial" Examples.mixed) = Ok tt
  /\ FS.readdir (fs (snd (deleteFont "arial" Examples.mixed))) ["data"; "fonts"]
     = Ok ["icons.svg"; "notes.txt"; "Arial.TTF"].
Proof. split; vm_compute; reflexivity. Qed.

(** C2: the entry of [Arial.TTF] has the whole file name as its [name]:
    the extension handed to [basename] is the lower-cased one, which the
    file name does not end with. The stem is [Arial]. *)
Theorem listFonts_name_keeps_upper_case_extension :
  fst (listFonts Examples.upperOnly)
  = Ok [{| name := "Arial.TTF"; fileName := "Arial.TTF"; format := "ttf"; size := 3;
           path := ["data"; "fonts"; "Arial.TTF"]; dataUrl := None |}]
  /\ allowListed "Arial.TTF" = true
  /\ stem "Arial.TTF" = "Arial".
Proof. repeat split; vm_compute; reflexivity. Qed.

(** C5: with [Arial.TTF] as the only font, [deleteFont "Arial"] succeeds and
    removes nothing, although the stem of the file is [Arial] and its
    extension is supported; [deleteFont "Arial.TTF"] removes the file, whose
    stem is not [Arial.TTF]. *)
Theorem deleteFont_misses_upper_case_extension :
  allowListed "Arial.TTF" = true
  /\ stem "Arial.TTF" = "Arial"
  /\ deleteFont "Arial" Examples.upperOnly = (Ok tt, Examples.upperOnly)
  /\ fst (deleteFont "Arial.TTF" Examples.upperOnly) = Ok tt
  /\ FS.nodeAt (fs (snd (deleteFont "Arial.TTF" Examples.upperOnly)))
       (Examples.inFonts "Arial.TTF") = None.
Proof. repeat split; vm_compute; reflexivity. Qed.


(** ** The theorems at work on the examples *)

Lemma uploadFont_rejects_malformed_payload_at_example :
  fst (uploadFont "x.ttf" "font/ttf;base64,QUJD" Examples.empty) = Throw InvalidEncodingError
  /\ fs (snd (uploadFont "x.ttf" "font/ttf;base64,QUJD" Examples.empty)) = fs Examples.empty
  /\ cache (snd (uploadFont "x.ttf" "font/ttf;base64,QUJD" Examples.empty))
     = cache Examples.empty.
Proof.
  apply (uploadFont_rejects_malformed_payload Examples.empty "x.ttf" "font/ttf;base64,QUJD").
  - vm_compute. reflexivity.
  - apply match_data_url_None. vm_compute. reflexivity.
Defined.

Lemma uploadFont_result_follows_cache_load_at_example :
  fs (snd (uploadFont "noto.otf" "data:font/otf;base64,QUJD" Examples.emptyRejecting))
  = FS.withNodes (fs Examples.emptyRejecting)
      (FS.nodes (fs Examples.emptyRejecting)
       ++ [(Examples.inFonts "noto.otf", FS.File Examples.ABC)])
  /\ fst (uploadFont "noto.otf" "data:font/otf;base64,QUJD" Examples.emptyRejecting)
     = Throw (ServiceError "font data rejected").
Proof.
  apply (uploadFont_result_follows_cache_load Examples.emptyRejecting
           "noto.otf" "data:font/otf;base64,QUJD" "font/otf" "QUJD");
    vm_compute; reflexivity.
Defined.

Lemma uploadFont_round_trip_at_example :
  let w := Examples.stale in
  let payload := "data:font/otf;base64,QUJD" in
  FS.readFile (fs w) (Examples.inFonts "noto.otf") = Some [Byte.x00; Byte.x01]
  /\ fst (uploadFont "noto.otf" payload w) = Ok tt
  /\ FS.readFile (fs (snd (uploadFont "noto.otf" payload w))) (Examples.inFonts "noto.otf")
     = Some [Byte.x41; Byte.x42; Byte.x43]
  /\ FS.nodeAt (fs (snd (uploadFont "noto.otf" payload w))) ["data"; "fonts"]
     = FS.nodeAt (fs w) ["data"; "fonts"].
Proof.
  cbv zeta.
  assert (Hrun : fst (uploadFont "noto.otf" "data:font/otf;base64,QUJD" Examples.stale) = Ok tt)
    by (vm_compute; reflexivity).
  destruct (uploadFont_round_trip Examples.stale "noto.otf" "data:font/otf;base64,QUJD" Hrun)
    as (mime & body & Hshape & Hmime & Hsemi & Hbody & Hline & Hread & Hother & Htarget).
  assert (Hpat : match_data_url "data:font/otf;base64,QUJD" = Some (mime, body))
    by (apply match_data_url_Some; repeat split; assumption).
  vm_compute in Hpat. injection Hpat as <- <-.
  rewrite (Htarget eq_refl) in Hread.
  split; [vm_compute; reflexivity|].
  split; [exact Hrun|].
  split; [exact Hread|].
  apply Hother. rewrite (Htarget eq_refl). discriminate.
Defined.

Lemma uploadFont_escapes_storage_directory_at_example :
  fs (snd (uploadFont "../evil.ttf" "data:font/ttf;base64,QUJD" Examples.empty))
  = FS.withNodes (fs Examples.empty)
      (FS.nodes (fs Examples.empty) ++ [(["data"; "evil.ttf"], FS.File Examples.ABC)]).
Proof.
  apply (proj1 uploadFont_escapes_storage_directory Examples.svc Examples.empty
           "../evil.ttf" "data:font/ttf;base64,QUJD" "font/ttf" "QUJD");
    vm_compute; reflexivity.
Defined.

Lemma listFonts_never_throws_at_example :
  listFonts Examples.unreadable =
  (Ok [], {| fs := fs Examples.unreadable; cache := cache Examples.unreadable;
             log := [{| level := LError; message := MsgReadFontDirFailed;
                        cause := Some (IOError EACCES Sscandir ["data"; "fonts"]) |}] |}).
Proof.
  apply (proj2 (listFonts_never_throws Examples.unreadable)
           (IOError EACCES Sscandir ["data"; "fonts"])).
  vm_compute. reflexivity.
Defined.

Lemma listFonts_one_entry_per_font_file_at_example :
  exists fonts,
    listFonts Examples.mixed = (Ok fonts, Examples.mixed)
    /\ NoDup ["arial.ttf"; "icons.svg"; "notes.txt"; "arial.woff"; "Arial.TTF"]
    /\ map fileName fonts =
       filter (fun file =>
                 allowListed file
                 && FS.isRegularFile (fs Examples.mixed)
                      (pathResolve [@fontRoot Examples.svc] Examples.mixed ++ [file]))
         ["arial.ttf"; "icons.svg"; "notes.txt"; "arial.woff"; "Arial.TTF"]
    /\ Forall (fun font =>
                 format font = JS.sliceFrom (JS.toLowerCase (extname (fileName font))) 1
                 /\ path font
                    = pathResolve [@fontRoot Examples.svc] Examples.mixed ++ [fileName font]
                 /\ exists content,
                      FS.nodeAt (fs Examples.mixed) (path font) = Some (FS.File content)
                      /\ size font = List.length content) fonts.
Proof.
  apply (listFonts_one_entry_per_font_file Examples.mixed
           ["arial.ttf"; "icons.svg"; "notes.txt"; "arial.woff"; "Arial.TTF"]).
  - vm_compute. reflexivity.
  - vm_compute. reflexivity.
  - intros file H. for_each_member H ltac:(vm_compute; reflexivity).
Defined.

Lemma deleteFont_stops_at_first_failure_at_example :
  let w := Examples.locked in
  let target f := pathResolve [@fontRoot Examples.svc; f] w in
  let err := IOError EACCES Sunlink (Examples.inFonts "arial.otf") in
  fst (deleteFont "arial" w) = Throw err
  /\ (forall f, In f ["arial.ttf"] ->
        FS.nodeAt (fs (snd (deleteFont "arial" w))) (target f) = None)
  /\ (forall f, In f ["arial.otf"; "arial.woff"] ->
        FS.nodeAt (fs (snd (deleteFont "arial" w))) (target f) = FS.nodeAt (fs w) (target f)
        /\ FS.nodeAt (fs w) (target f) <> None)
  /\ log (snd (deleteFont "arial" w)) =
     log w ++ map deletedEntry ["arial.ttf"]
       ++ [{| level := LError; message := MsgDeleteFontFailed "arial"; cause := Some err |}].
Proof.
  apply (deleteFont_stops_at_first_failure Examples.locked "arial"
           ["arial.ttf"; "arial.otf"; "arial.woff"] ["arial.ttf"] "arial.otf" ["arial.woff"]
           (IOError EACCES Sunlink (Examples.inFonts "arial.otf"))).
  - vm_compute. reflexivity.
  - vm_compute. reflexivity.
  - vm_compute. reflexivity.
  - intros f H. for_each_member H ltac:(vm_compute; reflexivity).
  - vm_compute. reflexivity.
Defined.

Lemma loadFontOnDemand_absent_is_null_for_lower_case_extensions_at_example :
  fst (loadFontOnDemand "Arial" Examples.lowerCase) = Ok None
  /\ fs (snd (loadFontOnDemand "Arial" Examples.lowerCase)) = fs Examples.lowerCase
  /\ cache (snd (loadFontOnDemand "Arial" Examples.lowerCase)) = cache Examples.lowerCase.
Proof.
  apply (loadFontOnDemand_absent_is_null_for_lower_case_extensions Examples.lowerCase "Arial").
  - vm_compute. reflexivity.
  - vm_compute. reflexivity.
  - intros files file Hread. vm_compute in Hread. injection Hread as <-.
    intros H. for_each_member H ltac:(vm_compute; reflexivity).
  - intros files file Hread. vm_compute in Hread. injection Hread as <-.
    intros H _. for_each_member H ltac:(vm_compute; discriminate).
Defined.

Lemma loadFontOnDemand_absent_is_null_unless_file_name_at_example :
  fst (loadFontOnDemand "verdana" Examples.mixed) = Ok None
  /\ fs (snd (loadFontOnDemand "verdana" Examples.mixed)) = fs Examples.mixed
  /\ cache (snd (loadFontOnDemand "verdana" Examples.mixed)) = cache Examples.mixed.
Proof.
  apply (loadFontOnDemand_absent_is_null_unless_file_name Examples.mixed "verdana").
  - vm_compute. reflexivity.
  - vm_compute. reflexivity.
  - intros files file Hread. vm_compute in Hread. injection Hread as <-.
    intros H _. for_each_member H ltac:(vm_compute; discriminate).
  - intros files file Hread. vm_compute in Hread. injection Hread as <-.
    intros H _. for_each_member H ltac:(discriminate).
Defined.

Lemma listFonts_name_is_stem_at_example :
  exists fonts,
    listFonts Examples.mixed = (Ok fonts, Examples.mixed)
    /\ Forall (fun font =>
                 JS.toLowerCase (extname (fileName font)) = extname (fileName font) ->
                 name font = stem (fileName font)) fonts.
Proof.
  apply (listFonts_name_is_stem_for_lower_case_extension Examples.mixed
           ["arial.ttf"; "icons.svg"; "notes.txt"; "arial.woff"; "Arial.TTF"]).
  - vm_compute. reflexivity.
  - vm_compute. reflexivity.
  - intros file H. for_each_member H ltac:(vm_compute; reflexivity).
Defined.

Lemma deleteFont_removes_the_stem_at_example :
  let w := Examples.lowerCase in
  let files := ["arial.ttf"; "icons.svg"; "notes.txt"; "arial.woff"] in
  let target f := pathResolve [@fontRoot Examples.svc; f] w in
  fst (deleteFont "arial" w) = Ok tt
  /\ (forall f, In f files -> stem f = "arial" -> allowListed f = true ->
        FS.nodeAt (fs (snd (deleteFont "arial" w))) (target f) = None)
  /\ (forall f, In f files -> ~ (stem f = "arial" /\ allowListed f = true) ->
        FS.nodeAt (fs (snd (deleteFont "arial" w))) (target f) = FS.nodeAt (fs w) (target f))
  /\ (forall q, (forall f, In f files -> q <> target f) ->
        FS.nodeAt (fs (snd (deleteFont "arial" w))) q = FS.nodeAt (fs w) q).
Proof.
  apply (deleteFont_removes_the_stem_for_lower_case_extensions Examples.lowerCase "arial"
           ["arial.ttf"; "icons.svg"; "notes.txt"; "arial.woff"]).
  - vm_compute. reflexivity.
  - vm_compute. reflexivity.
  - intros f H. for_each_member H ltac:(vm_compute; reflexivity).
  - intros f H Hstem _.
    for_each_member H
      ltac:(first [vm_compute; reflexivity | vm_compute in Hstem; discriminate]).
Defined.

Lemma uploadFont_rejects_unsupported_extension_at_example :
  fst (uploadFont "virus.exe" "data:font/ttf;base64,QUJD" Examples.empty)
  = Throw (UnsupportedFormatError ".exe")
  /\ fs (snd (uploadFont "virus.exe" "data:font/ttf;base64,QUJD" Examples.empty))
     = fs Examples.empty
  /\ cache (snd (uploadFont "virus.exe" "data:font/ttf;base64,QUJD" Examples.empty))
     = cache Examples.empty.
Proof.
  apply (uploadFont_rejects_unsupported_extension Examples.empty "virus.exe"
           "data:font/ttf;base64,QUJD").
  vm_compute. reflexivity.
Defined.

Lemma loadFontOnDemand_cache_hit_at_example :
  let w := Examples.world Examples.svc
             [("arial", {| FontInfo.dataUrl := "data:font/ttf;base64,QUJD" |})] [] [] in
  loadFontOnDemand "arial" w =
  (Ok (Some "data:font/ttf;base64,QUJD"),
   {| fs := fs w; cache := cache w;
      log := [{| level := LDebug; message := MsgAlreadyInMemory "arial"; cause := None |}] |}).
Proof.
  apply (loadFontOnDemand_cache_hit
           (Examples.world Examples.svc
              [("arial", {| FontInfo.dataUrl := "data:font/ttf;base64,QUJD" |})] [] [])
           "arial" {| FontInfo.dataUrl := "data:font/ttf;base64,QUJD" |}).
  - reflexivity.
  - discriminate.
Defined.

(** * How the operations behave beyond their first failure, and together *)

Lemma lookup_In (p : Path) (l : list (Path * FS.Node)) :
  FS.lookup p l <> None <-> In p (map fst l).
Proof.
  induction l as [|[q n] l IH]; simpl; [tauto|].
  destruct (FS.path_eqb q p) eqn:E.
  - apply path_eqb_eq in E. split; [auto|discriminate].
  - rewrite IH. split; [auto|]. intros [H|H]; [|assumption].
    subst. now rewrite path_eqb_refl in E.
Qed.

Lemma unlinkError_None (fs : FS.t) (p : Path) :
  FS.unlinkError fs p = None ->
  p <> [] /\ exists content, FS.nodeAt fs p = Some (FS.File content).
Proof.
  unfold FS.unlinkError. destruct (FS.isDenied fs Sunlink p); [discriminate|].
  destruct p as [|a p]; [discriminate|].
  destruct (FS.nodeAt fs (a :: p)) as [[content|]|]; try discriminate.
  intros _. split; [discriminate|eauto].
Qed.

Section Composition.

Context {S : FontsService}.

(** The loop of [listFonts] over a directory listing in two parts. *)
Lemma listFonts_for_app (w : World S) (l1 l2 : list string) :
  forall acc,
    listFonts_for w (l1 ++ l2) acc =
    match listFonts_for w l1 acc with
    | (acc', Ok _) => listFonts_for w l2 acc'
    | (acc', Throw err) => (acc', Throw err)
    end.
Proof.
  induction l1 as [|file l1 IH]; intro acc; [reflexivity|].
  cbn [app listFonts_for].
  destruct (negb (JS.includes SUPPORTED_FORMATS (JS.toLowerCase (extname file)))); [apply IH|].
  destruct (FS.stat (fs w) (pathResolve [fontRoot; file] w)) as [st|err]; [|reflexivity].
  destruct (FS.isDirectory st); apply IH.
Qed.

(** Whatever the loop of [listFonts] has pushed, and however it ended: each
    entry stands for a file of the listing with a supported extension that
    [stat] found to be a regular file, and carries what the cache held for
    its name. *)
Lemma listFonts_for_sound (w : World S) (files : list string) :
  forall acc,
    exists added,
      fst (listFonts_for w files acc) = acc ++ added
      /\ Forall (fun font =>
                   In (fileName font) files
                   /\ allowListed (fileName font) = true
                   /\ name font
                      = basename (fileName font) (JS.toLowerCase (extname (fileName font)))
                   /\ path font = pathResolve [fontRoot; fileName font] w
                   /\ (exists content,
                         FS.nodeAt (fs w) (path font) = Some (FS.File content)
                         /\ size font = List.length content)
                   /\ dataUrl font
                      = option_map FontInfo.dataUrl (getFontInfo (cache w) (name font))
                   /\ format font
                      = JS.sliceFrom (JS.toLowerCase (extname (fileName font))) 1)
           added.
Proof.
  induction files as [|file rest IH]; intro acc.
  - exists []. cbn. now rewrite app_nil_r.
  - assert (Hweak : forall acc', (exists added,
              fst (listFonts_for w rest acc') = acc' ++ added
              /\ Forall (fun font =>
                   In (fileName font) (file :: rest)
                   /\ allowListed (fileName font) = true
                   /\ name font
                      = basename (fileName font) (JS.toLowerCase (extname (fileName font)))
                   /\ path font = pathResolve [fontRoot; fileName font] w
                   /\ (exists content,
                         FS.nodeAt (fs w) (path font) = Some (FS.File content)
                         /\ size font = List.length content)
                   /\ dataUrl font
                      = option_map FontInfo.dataUrl (getFontInfo (cache w) (name font))
                   /\ format font
                      = JS.sliceFrom (JS.toLowerCase (extname (fileName font))) 1)
                   added)).
    { intro acc'. destruct (IH acc') as (added & Hrun & Hall). exists added.
      split; [assumption|]. revert Hall. apply Forall_impl.
      intros font (H1 & H2). split; [now right|assumption]. }
    cbn [listFonts_for].
    destruct (JS.includes SUPPORTED_FORMATS (JS.toLowerCase (extname file))) eqn:Hext;
      cbn [negb]; [|apply Hweak].
    destruct (FS.stat (fs w) (pathResolve [fontRoot; file] w)) as [st|err] eqn:Est.
    + destruct (stat_Ok _ _ _ Est) as [(content & Hnode & Hdir & Hsize)|[Hnode Hdir]];
        rewrite Hdir; [|apply Hweak].
      match goal with
      | |- context [listFonts_for w rest (acc ++ [?e])] =>
          destruct (Hweak (acc ++ [e])) as (added & Hrun & Hall); exists (e :: added)
      end.
      rewrite Hrun, <- app_assoc. split; [reflexivity|].
      constructor; [|assumption].
      cbn [fileName name path size dataUrl format]. unfold glyphService_getFontInfo.
      repeat split; try reflexivity; [now left|exact Hext|].
      exists content. now rewrite Hsize.
    + exists []. cbn. rewrite app_nil_r. auto.
Qed.

(** The listing up to the first entry that cannot be stat-ed: [listFonts]
    returns the fonts before that entry and logs the error. *)
Theorem listFonts_stops_at_first_stat_failure
  (w : World S) (before : list string) (file : string) (after : list string) (err : Error) :
  FS.wf (fs w) = true ->
  FS.readdir (fs w) (pathResolve [fontRoot] w) = Ok (before ++ file :: after) ->
  (forall f, In f before ->
     isOk (FS.stat (fs w) (pathResolve [fontRoot; f] w)) = true) ->
  allowListed file = true ->
  FS.stat (fs w) (pathResolve [fontRoot; file] w) = Throw err ->
  exists fonts,
    listFonts w =
    (Ok fonts, {| fs := fs w; cache := cache w;
                  log := log w ++ [{| level := LError; message := MsgReadFontDirFailed;
                                      cause := Some err |}] |})
    /\ map fileName fonts =
       filter (fun f => allowListed f
                        && FS.isRegularFile (fs w) (pathResolve [fontRoot] w ++ [f])) before.
Proof.
  intros Hwf Hread Hstat Hallow Hfail.
  destruct (readdir_wf _ _ _ Hwf Hread) as [_ Hnames].
  destruct (listFonts_for_Ok w before []) as (added & Hrun & Hmap & _).
  - intros f Hf. apply Hnames, in_or_app. now left.
  - exact Hstat.
  - exists added. split; [|exact Hmap].
    unfold listFonts. rewrite Hread, listFonts_for_app, Hrun.
    cbn [listFonts_for app]. unfold allowListed in Hallow. rewrite Hallow, Hfail.
    reflexivity.
Qed.

(** What the loop of [deleteFont] does to the world, however it ends: the
    cache and the working directory stay, a path keeps its node or loses it,
    and it loses it only as the resolved path of one of the files; when the
    loop returns, all of them are gone. *)
Lemma deleteFont_for_frame (files : list string) :
  forall (w w' : World S) (r : Result unit),
    deleteFont_for files w = (r, w') ->
    FS.cwd (fs w') = FS.cwd (fs w)
    /\ cache w' = cache w
    /\ (forall q, FS.nodeAt (fs w') q = FS.nodeAt (fs w) q
                  \/ (FS.nodeAt (fs w') q = None
                      /\ exists f, In f files /\ q = pathResolve [fontRoot; f] w))
    /\ (r = Ok tt -> forall f, In f files ->
          FS.nodeAt (fs w') (pathResolve [fontRoot; f] w) = None).
Proof.
  induction files as [|f rest IH]; intros w w' r Hrun.
  - cbn in Hrun. injection Hrun as <- <-. repeat split; auto. intros _ f [].
  - cbn [deleteFont_for] in Hrun. unfold bind at 1, unlink, FS.unlink in Hrun.
    destruct (FS.unlinkError (fs w) (pathResolve [fontRoot; f] w)) as [e|] eqn:Eul.
    + injection Hrun as <- <-. repeat split; auto. discriminate.
    + destruct (unlinkError_None _ _ Eul) as [Hne _].
      unfold bind at 1 in Hrun. cbn [logger] in Hrun.
      apply IH in Hrun. cbn [fs cache withFs FS.cwd FS.withNodes] in Hrun.
      destruct Hrun as (Hcwd & Hcache & Hnodes & Hgone).
      assert (Hstep : forall q,
                FS.nodeAt (FS.withNodes (fs w)
                             (FS.remove (pathResolve [fontRoot; f] w) (FS.nodes (fs w)))) q
                = if FS.path_eqb (pathResolve [fontRoot; f] w) q then None
                  else FS.nodeAt (fs w) q).
      { intro q. destruct (FS.path_eqb (pathResolve [fontRoot; f] w) q) eqn:E.
        - apply path_eqb_eq in E; subst q.
          rewrite nodeAt_withNodes by assumption. apply lookup_remove_same.
        - destruct q as [|a q]; [reflexivity|].
          cbn [FS.nodeAt FS.withNodes FS.nodes].
          apply lookup_remove_other. intro Heq. rewrite <- Heq in E.
          now rewrite path_eqb_refl in E. }
      assert (Hsame : forall g, pathResolve [fontRoot; g]
                (snd (logger LInfo (MsgFontFileDeleted f) None
                   (withFs w (FS.withNodes (fs w)
                      (FS.remove (pathResolve [fontRoot; f] w) (FS.nodes (fs w)))))))
                = pathResolve [fontRoot; g] w) by reflexivity.
      assert (Hall : forall q, FS.nodeAt (fs w') q = FS.nodeAt (fs w) q
                  \/ (FS.nodeAt (fs w') q = None
                      /\ exists g, In g (f :: rest) /\ q = pathResolve [fontRoot; g] w)).
      { intro q. destruct (Hnodes q) as [H|(H & g & Hg & ->)].
        - rewrite Hstep in H.
          destruct (FS.path_eqb (pathResolve [fontRoot; f] w) q) eqn:E; [|now left].
          apply path_eqb_eq in E. right. split; [assumption|].
          exists f. split; [now left|now symmetry].
        - right. split; [assumption|]. exists g. split; [now right|apply Hsame]. }
      repeat split; try assumption.
      intros Hr g [Hfg|Hg].
      * subst g.
        destruct (Hnodes (pathResolve [fontRoot; f] w)) as [H'|[H' _]]; [|assumption].
        now rewrite Hstep, path_eqb_refl in H'.
      * rewrite <- (Hsame g). now apply Hgone.
Qed.

(** The run of [deleteFont], branch by branch. *)
Lemma deleteFont_run (w : World S) (fontName : string) :
  deleteFont fontName w =
  let failed err w1 := snd (logger LError (MsgDeleteFontFailed fontName) (Some err) w1) in
  match FS.readdir (fs w) (pathResolve [fontRoot] w) with
  | Throw err => (Throw err, failed err w)
  | Ok files =>
      match deleteFont_for (filter (matchesFont fontName) files) w with
      | (Ok u, w') => (Ok u, w')
      | (Throw err, w') => (Throw err, failed err w')
      end
  end.
Proof.
  unfold deleteFont, tryCatch, bind at 1, readdir.
  destruct (FS.readdir (fs w) (pathResolve [fontRoot] w)) as [files|err]; [|reflexivity].
  destruct (deleteFont_for (filter (matchesFont fontName) files) w) as [[u|err] w'];
    reflexivity.
Qed.

(** [deleteFont] leaves the cache alone, whatever its outcome. *)
Lemma deleteFont_keeps_cache (w : World S) (fontName : string) :
  cache (snd (deleteFont fontName w)) = cache w.
Proof.
  rewrite deleteFont_run. cbv zeta.
  destruct (FS.readdir (fs w) (pathResolve [fontRoot] w)) as [files|err]; [|reflexivity].
  destruct (deleteFont_for (filter (matchesFont fontName) files) w) as [r w'] eqn:Hrun.
  destruct (deleteFont_for_frame _ _ _ _ Hrun) as (_ & Hcache & _).
  now destruct r.
Qed.

(** What [deleteFont] changes, whatever its outcome. *)
Lemma deleteFont_changes (w : World S) (fontName : string) :
  cache (snd (deleteFont fontName w)) = cache w
  /\ forall q,
       FS.nodeAt (fs (snd (deleteFont fontName w))) q = FS.nodeAt (fs w) q
       \/ (FS.nodeAt (fs (snd (deleteFont fontName w))) q = None
           /\ exists files f,
                FS.readdir (fs w) (pathResolve [fontRoot] w) = Ok files
                /\ In f files
                /\ allowListed f = true
                /\ basename f (JS.toLowerCase (extname f)) = fontName
                /\ q = pathResolve [fontRoot; f] w).
Proof.
  rewrite deleteFont_run. cbv zeta.
  destruct (FS.readdir (fs w) (pathResolve [fontRoot] w)) as [files|err] eqn:Hread.
  - destruct (deleteFont_for (filter (matchesFont fontName) files) w) as [r w'] eqn:Hrun.
    destruct (deleteFont_for_frame _ _ _ _ Hrun) as (_ & Hcache & Hnodes & _).
    assert (Hq : forall q,
              FS.nodeAt (fs w') q = FS.nodeAt (fs w) q
              \/ (FS.nodeAt (fs w') q = None
                  /\ exists files0 f,
                       Ok files = Ok files0 /\ In f files0 /\ allowListed f = true
                       /\ basename f (JS.toLowerCase (extname f)) = fontName
                       /\ q = pathResolve [fontRoot; f] w)).
    { intro q. destruct (Hnodes q) as [H|(H & f & Hf & ->)]; [now left|right].
      split; [assumption|]. apply filter_In in Hf as [Hin Hm].
      unfold matchesFont in Hm. apply andb_true_iff in Hm as [Hname Hext].
      apply String.eqb_eq in Hname. exists files, f. auto. }
    destruct r as [u|err]; cbn [snd logger fs cache]; auto.
  - cbn [snd logger fs cache]. auto.
Qed.

(** [deleteFont] only removes, and only font files of the storage directory
    that its filter accepts: whatever its outcome, the cache is as before,
    and every path keeps the node it had unless it is the resolved path of
    such an entry, which then has none. *)
Theorem deleteFont_only_removes_matching_files (w : World S) (fontName : string) :
  cache (snd (deleteFont fontName w)) = cache w
  /\ forall q,
       FS.nodeAt (fs (snd (deleteFont fontName w))) q = FS.nodeAt (fs w) q
       \/ (FS.nodeAt (fs (snd (deleteFont fontName w))) q = None
           /\ exists files f,
                FS.readdir (fs w) (pathResolve [fontRoot] w) = Ok files
                /\ In f files
                /\ allowListed f = true
                /\ basename f (JS.toLowerCase (extname f)) = fontName
                /\ q = pathResolve [fontRoot; f] w).
Proof. exact (deleteFont_changes w fontName). Qed.

Lemma get_after_deleteFont_run (w w' : World S) (fontName : string) :
  deleteFont fontName w = (Ok tt, w') ->
  exists payload,
    fst (get w') = Ok payload
    /\ Forall (fun font => name font <> fontName) (fonts payload).
Proof.
  rewrite deleteFont_run. cbv zeta.
  destruct (FS.readdir (fs w) (pathResolve [fontRoot] w)) as [files|err] eqn:Hread;
    [|discriminate].
  destruct (deleteFont_for (filter (matchesFont fontName) files) w) as [[u|err] w1] eqn:Hrun;
    [|discriminate].
  intros [= -> <-].
  destruct (deleteFont_for_frame _ _ _ _ Hrun) as (Hcwd & _ & Hnodes & Hgone).
  specialize (Hgone eq_refl).
  assert (Hres : forall args, pathResolve args w1 = pathResolve args w)
    by (intro args; unfold pathResolve; now rewrite Hcwd).
  unfold get, bind, ret, listFonts.
  destruct (FS.readdir (fs w1) (pathResolve [fontRoot] w1)) as [files'|err'] eqn:Hread'.
  - destruct (listFonts_for_sound w1 files' []) as (added & Hadded & Hall).
    destruct (listFonts_for w1 files' []) as [listed outcome]. cbn [fst app] in Hadded.
    subst listed. exists {| fonts := added |}.
    split; [now destruct outcome|]. cbn [fonts].
    revert Hall. apply Forall_impl.
    intros font (Hin & Hallow & Hname & Hpath & (content & Hnode & _) & _) Heq.
    rewrite Hpath, Hres in Hnode.
    rewrite Hgone in Hnode; [discriminate|].
    apply filter_In. split.
    + apply readdir_Ok in Hread, Hread'. subst files files'. rewrite Hres in Hin.
      apply In_childNames in Hin. apply In_childNames.
      apply lookup_In in Hin. apply lookup_In.
      set (q := pathResolve [fontRoot] w ++ [fileName font]) in *.
      assert (Hq : q <> []) by (unfold q; now destruct (pathResolve [fontRoot] w)).
      rewrite <- nodeAt_nonempty in Hin |- * by assumption.
      destruct (Hnodes q) as [H|[H _]]; congruence.
    + unfold matchesFont. apply andb_true_iff. split; [|exact Hallow].
      apply String.eqb_eq. congruence.
  - exists {| fonts := [] |}. split; [reflexivity|constructor].
Qed.

(** After a [deleteFont] that returned, the data of the provider holds no
    font under the deleted name. *)
Theorem get_after_deleteFont (w : World S) (fontName : string) :
  fst (deleteFont fontName w) = Ok tt ->
  exists payload,
    fst (get (snd (deleteFont fontName w))) = Ok payload
    /\ Forall (fun font => name font <> fontName) (fonts payload).
Proof.
  destruct (deleteFont fontName w) as [r w'] eqn:Hdel. cbn [fst snd]. intros ->.
  exact (get_after_deleteFont_run w w' fontName Hdel).
Qed.

(** [deleteFont] does not unload: a font that the cache held with a data URL
    is still answered by [loadFontOnDemand] after its files are deleted. *)
Theorem loadFontOnDemand_after_deleteFont
  (w : World S) (fontName : string) (info : FontInfo.t) :
  getFontInfo (cache w) fontName = Some info ->
  FontInfo.dataUrl info <> "" ->
  fst (loadFontOnDemand fontName (snd (deleteFont fontName w)))
  = Ok (Some (FontInfo.dataUrl info)).
Proof.
  intros Hinfo Hurl.
  pose proof (deleteFont_keeps_cache w fontName) as Hcache.
  unfold loadFontOnDemand, tryCatch, glyphService_getFontInfo.
  rewrite Hcache, Hinfo. cbn [option_map JS.truthy].
  apply String.eqb_neq in Hurl. rewrite Hurl. reflexivity.
Qed.

(** A name that no font file of the directory goes by: [deleteFont]
    returns and nothing has changed, not even the log. *)
Theorem deleteFont_unknown_name (w : World S) (fontName : string) (files : list string) :
  FS.readdir (fs w) (pathResolve [fontRoot] w) = Ok files ->
  (forall f, In f files -> allowListed f = true ->
     basename f (JS.toLowerCase (extname f)) <> fontName) ->
  deleteFont fontName w = (Ok tt, w).
Proof.
  intros Hread Hnone. rewrite deleteFont_run, Hread. cbv zeta.
  replace (filter (matchesFont fontName) files) with (@nil string); [reflexivity|].
  symmetry. clear Hread. induction files as [|f files IH]; [reflexivity|].
  cbn [filter]. destruct (matchesFont fontName f) eqn:Hm.
  - unfold matchesFont in Hm. apply andb_true_iff in Hm as [Hname Hext].
    apply String.eqb_eq in Hname. exfalso. apply (Hnone f); auto. now left.
  - apply IH. intros g Hg. apply Hnone. now right.
Qed.

(** The loop of [loadFontOnDemand] never writes to the file system. *)
Lemma loadFontOnDemand_for_fs (fontName : string) (files : list string) (w : World S) :
  fs (snd (loadFontOnDemand_for fontName files w)) = fs w.
Proof.
  induction files as [|file rest IH]; [reflexivity|].
  cbn [loadFontOnDemand_for].
  destruct (String.eqb (basename file (JS.toLowerCase (extname file))) fontName
            && JS.includes SUPPORTED_FORMATS (JS.toLowerCase (extname file))); [|exact IH].
  unfold bind, glyphService_loadSingleFont.
  destruct (loadSingleFont (fs w) (pathResolve [fontRoot; file] w) (cache w)); reflexivity.
Qed.

(** The run of [loadFontOnDemand], branch by branch. *)
Lemma loadFontOnDemand_run (w : World S) (fontName : string) :
  loadFontOnDemand fontName w =
  let cached := option_map FontInfo.dataUrl (getFontInfo (cache w) fontName) in
  let failed err w1 := snd (logger LError (MsgLoadOnDemandFailed fontName) (Some err) w1) in
  if JS.truthy cached then
    (Ok cached, snd (logger LDebug (MsgAlreadyInMemory fontName) None w))
  else
    match FS.readdir (fs w) (pathResolve [fontRoot] w) with
    | Throw err => (Ok None, failed err w)
    | Ok files =>
        match loadFontOnDemand_for fontName files w with
        | (Ok v, w') => (Ok v, w')
        | (Throw err, w') => (Ok None, failed err w')
        end
    end.
Proof.
  unfold loadFontOnDemand, tryCatch, glyphService_getFontInfo. cbv zeta.
  destruct (JS.truthy (option_map FontInfo.dataUrl (getFontInfo (cache w) fontName)));
    [reflexivity|].
  unfold bind at 1, readdir.
  destruct (FS.readdir (fs w) (pathResolve [fontRoot] w)) as [files|err]; [|reflexivity].
  destruct (loadFontOnDemand_for fontName files w) as [[v|err] w']; reflexivity.
Qed.

(** [loadFontOnDemand] returns on every world, whatever fails underneath
    (reading the directory, loading the file), and leaves the file system
    as it was. *)
Theorem loadFontOnDemand_never_throws (w : World S) (fontName : string) :
  (exists v, fst (loadFontOnDemand fontName w) = Ok v)
  /\ fs (snd (loadFontOnDemand fontName w)) = fs w.
Proof.
  rewrite loadFontOnDemand_run. cbv zeta.
  destruct (JS.truthy (option_map FontInfo.dataUrl (getFontInfo (cache w) fontName)));
    [cbn [fst snd logger fs]; eauto|].
  destruct (FS.readdir (fs w) (pathResolve [fontRoot] w)) as [files|err];
    [|cbn [fst snd logger fs]; eauto].
  pose proof (loadFontOnDemand_for_fs fontName files w) as Hfs.
  destruct (loadFontOnDemand_for fontName files w) as [[v|err] w'];
    cbn [fst snd logger fs] in *; eauto.
Qed.

(** The loop of [loadFontOnDemand] skips the files that do not match. *)
Lemma loadFontOnDemand_for_skip (fontName : string) (before rest : list string) (w : World S) :
  (forall f, In f before -> matchesFont fontName f = false) ->
  loadFontOnDemand_for fontName (before ++ rest) w = loadFontOnDemand_for fontName rest w.
Proof.
  induction before as [|f before IH]; intro Hskip; [reflexivity|].
  cbn [app loadFontOnDemand_for].
  pose proof (Hskip f (or_introl eq_refl)) as Hf. unfold matchesFont in Hf. rewrite Hf.
  apply IH. intros g Hg. apply Hskip. now right.
Qed.

(** On a cache miss [loadFontOnDemand] loads the first matching file of the
    enumeration and no other: its answer is what the cache then holds for
    the name, or [null] when the load fails, and the files after the first
    match play no part. *)
Theorem loadFontOnDemand_loads_first_match
  (w : World S) (fontName : string) (before : list string) (file : string)
  (after : list string) :
  JS.truthy (option_map FontInfo.dataUrl (getFontInfo (cache w) fontName)) = false ->
  FS.readdir (fs w) (pathResolve [fontRoot] w) = Ok (before ++ file :: after) ->
  (forall f, In f before -> matchesFont fontName f = false) ->
  matchesFont fontName file = true ->
  fst (loadFontOnDemand fontName w) =
    match loadSingleFont (fs w) (pathResolve [fontRoot; file] w) (cache w) with
    | Ok c => Ok (orNull (option_map FontInfo.dataUrl (getFontInfo c fontName)))
    | Throw _ => Ok None
    end
  /\ cache (snd (loadFontOnDemand fontName w)) =
     match loadSingleFont (fs w) (pathResolve [fontRoot; file] w) (cache w) with
     | Ok c => c
     | Throw _ => cache w
     end.
Proof.
  intros Hmiss Hread Hskip Hmatch.
  rewrite loadFontOnDemand_run. cbv zeta.
  rewrite Hmiss, Hread, (loadFontOnDemand_for_skip _ _ _ _ Hskip).
  cbn [loadFontOnDemand_for]. unfold matchesFont in Hmatch. rewrite Hmatch.
  unfold bind, glyphService_loadSingleFont, glyphService_getFontInfo.
  destruct (loadSingleFont (fs w) (pathResolve [fontRoot; file] w) (cache w));
    cbn [fst snd logger ret cache withCache]; auto.
Qed.

(** A write that is refused: [uploadFont] throws the error of the write,
    the load into the cache is not attempted, and the log gets the one line
    of the failure. *)
Theorem uploadFont_write_failure
  (w : World S) (file payload mime body : string) (err : Error) :
  JS.includes SUPPORTED_FORMATS (JS.toLowerCase (extname file)) = true ->
  match_data_url payload = Some (mime, body) ->
  FS.writeFile (fs w) (pathResolve [fontRoot; file] w) (Buffer_from_base64 body) = Throw err ->
  fst (uploadFont file payload w) = Throw err
  /\ cache (snd (uploadFont file payload w)) = cache w
  /\ log (snd (uploadFont file payload w))
     = log w ++ [{| level := LError; message := MsgUploadFailed file; cause := Some err |}].
Proof.
  intros Hext Hpat Hwrite. rewrite uploadFont_run. cbv zeta.
  rewrite Hext, Hpat, Hwrite. cbn. auto.
Qed.

(** What a successful [uploadFont] went through. *)
Lemma uploadFont_Ok (w w' : World S) (file payload : string) :
  uploadFont file payload w = (Ok tt, w') ->
  exists mime body,
    JS.includes SUPPORTED_FORMATS (JS.toLowerCase (extname file)) = true
    /\ match_data_url payload = Some (mime, body)
    /\ FS.writeFile (fs w) (pathResolve [fontRoot; file] w) (Buffer_from_base64 body)
       = Ok (fs w').
Proof.
  rewrite uploadFont_run. cbv zeta.
  destruct (JS.includes SUPPORTED_FORMATS (JS.toLowerCase (extname file)));
    [|discriminate].
  destruct (match_data_url payload) as [[mime body]|]; [|discriminate].
  destruct (FS.writeFile (fs w) (pathResolve [fontRoot; file] w) (Buffer_from_base64 body))
    as [fs'|err] eqn:Hwrite; [|discriminate].
  cbn [negb]. destruct (loadSingleFont fs' _ (cache w)); [|discriminate].
  intros [= <-]. exists mime, body. repeat split. exact Hwrite.
Qed.

End Composition.

Lemma map_fst_replace (p : Path) (n : FS.Node) (l : list (Path * FS.Node)) :
  map fst (FS.replace p n l) = map fst l.
Proof.
  induction l as [|[q m] l IH]; [reflexivity|]. simpl.
  destruct (FS.path_eqb q p); simpl; [reflexivity|now rewrite IH].
Qed.

Lemma noDupPaths_snoc (l : list Path) (p : Path) :
  FS.noDupPaths l = true -> ~ In p l -> FS.noDupPaths (l ++ [p]) = true.
Proof.
  induction l as [|q l IH]; intros Hnd Hnotin; [reflexivity|].
  cbn [app FS.noDupPaths] in *. apply andb_true_iff in Hnd as [Hq Hl].
  apply andb_true_iff. split.
  - rewrite existsb_app, negb_orb. apply andb_true_iff. split; [assumption|].
    cbn. rewrite orb_false_r. apply negb_true_iff, path_eqb_neq.
    intros ->. apply Hnotin. now left.
  - apply IH; [assumption|]. intro H. apply Hnotin. now right.
Qed.

(** Writing a file under a plain name keeps the file system well formed. *)
Lemma writeFile_wf (fs fs' : FS.t) (dir : Path) (file : string) (data : list Byte.byte) :
  FS.wf fs = true ->
  validName file = true ->
  FS.writeFile fs (dir ++ [file]) data = Ok fs' ->
  FS.wf fs' = true.
Proof.
  intros Hwf Hname. unfold FS.writeFile.
  destruct (FS.hasNullByte (dir ++ [file])); [discriminate|].
  destruct (Nat.leb FS.PATH_MAX (FS.pathBytes (dir ++ [file]))); [discriminate|].
  destruct (FS.isDenied fs Sopen (dir ++ [file])); [discriminate|].
  destruct (FS.obstacle fs [] (dir ++ [file])) eqn:Hwalk; [discriminate|].
  assert (Hne : dir ++ [file] <> []) by now destruct dir.
  rewrite nodeAt_nonempty by assumption.
  unfold FS.wf in *. apply andb_true_iff in Hwf as [Hnd Hvalid].
  destruct (FS.lookup (dir ++ [file]) (FS.nodes fs)) as [[content|]|] eqn:E;
    try discriminate.
  - intros [= <-]. cbn [FS.nodes FS.withNodes]. rewrite map_fst_replace.
    now rewrite Hnd, Hvalid.
  - intros [= <-]. cbn [FS.nodes FS.withNodes]. rewrite map_app. cbn [map fst].
    apply andb_true_iff. split.
    + apply noDupPaths_snoc; [assumption|]. intro Hin. apply lookup_In in Hin. congruence.
    + rewrite forallb_app. apply andb_true_iff. split; [exact Hvalid|].
      cbn [forallb]. rewrite andb_true_r, forallb_app. cbn [forallb].
      rewrite Hname, !andb_true_r.
      destruct dir as [|d dir]; [reflexivity|].
      apply obstacle_None in Hwalk; [|discriminate]. cbn [app] in Hwalk.
      rewrite nodeAt_nonempty in Hwalk by discriminate.
      assert (Hin : In (d :: dir) (map fst (FS.nodes fs)))
        by (apply lookup_In; congruence).
      rewrite forallb_forall in Hvalid. now apply Hvalid.
Qed.

Section UploadThenGet.

Context {S : FontsService}.

Lemma get_after_uploadFont_run
  (w w' : World S) (file payload : string) (files : list string) :
  FS.wf (fs w) = true ->
  validName file = true ->
  uploadFont file payload w = (Ok tt, w') ->
  FS.readdir (fs w') (pathResolve [fontRoot] w') = Ok files ->
  (forall f, In f files ->
     isOk (FS.stat (fs w') (pathResolve [fontRoot; f] w')) = true) ->
  exists shown mime body font,
    fst (get w') = Ok shown
    /\ match_data_url payload = Some (mime, body)
    /\ In font (fonts shown)
    /\ fileName font = file
    /\ size font = List.length (Buffer_from_base64 body)
    /\ format font = JS.sliceFrom (JS.toLowerCase (extname file)) 1
    /\ NoDup (map fileName (fonts shown)).
Proof.
  intros Hwf Hname Hup Hread Hstat.
  destruct (uploadFont_Ok _ _ _ _ Hup) as (mime & body & Hext & Hpat & Hwrite).
  assert (Htarget : pathResolve [fontRoot; file] w = pathResolve [fontRoot] w ++ [file])
    by now apply resolve_child.
  rewrite Htarget in Hwrite.
  pose proof (writeFile_wf _ _ _ _ _ Hwf Hname Hwrite) as Hwf'.
  destruct (writeFile_Ok _ _ _ _ Hwrite) as (Hback & _ & Hcwd & _).
  assert (Hres : forall args, pathResolve args w' = pathResolve args w)
    by (intro args; unfold pathResolve; now rewrite Hcwd).
  destruct (readdir_wf _ _ _ Hwf' Hread) as [Hnodup Hnames].
  destruct (listFonts_for_Ok w' files [] (fun f H => proj1 (Hnames f H)) Hstat)
    as (added & Hrun & Hmap & Hall).
  cbn [app] in Hrun.
  assert (Hregular : FS.isRegularFile (fs w') (pathResolve [fontRoot] w' ++ [file]) = true).
  { unfold FS.isRegularFile. rewrite Hres. unfold FS.readFile in Hback.
    destruct (FS.nodeAt (fs w') (pathResolve [fontRoot] w ++ [file])) as [[c|]|];
      congruence. }
  assert (Hin : In file (map fileName added)).
  { rewrite Hmap. apply filter_In. split.
    - apply readdir_Ok in Hread. subst files. apply In_childNames. rewrite Hres.
      apply lookup_In. unfold FS.readFile in Hback.
      rewrite nodeAt_nonempty in Hback by now destruct (pathResolve [fontRoot] w).
      destruct (FS.lookup (pathResolve [fontRoot] w ++ [file]) (FS.nodes (fs w')));
        [discriminate|discriminate Hback].
    - unfold allowListed. now rewrite Hext, Hregular. }
  apply in_map_iff in Hin as (font & Hfile & Hfont).
  exists {| fonts := added |}, mime, body, font.
  rewrite Forall_forall in Hall.
  destruct (Hall font Hfont) as (Hformat & Hpath & (content & Hnode & Hsize) & _).
  repeat split.
  - unfold get, bind, ret, listFonts. now rewrite Hread, Hrun.
  - exact Hpat.
  - exact Hfont.
  - exact Hfile.
  - rewrite Hsize. f_equal. rewrite Hpath, Hfile, Hres in Hnode.
    unfold FS.readFile in Hback. rewrite Hnode in Hback. congruence.
  - now rewrite Hformat, Hfile.
  - cbn [fonts]. rewrite Hmap. now apply NoDup_filter.
Qed.

(** After a successful [uploadFont] under a plain file name, when the
    storage directory can be listed, the data of the provider shows the
    font once, with the byte length of the decoded payload as its size. *)
Theorem get_after_uploadFont
  (w : World S) (file payload : string) (files : list string) :
  let w' := snd (uploadFont file payload w) in
  FS.wf (fs w) = true ->
  validName file = true ->
  fst (uploadFont file payload w) = Ok tt ->
  FS.readdir (fs w') (pathResolve [fontRoot] w') = Ok files ->
  (forall f, In f files ->
     isOk (FS.stat (fs w') (pathResolve [fontRoot; f] w')) = true) ->
  exists shown mime body font,
    fst (get w') = Ok shown
    /\ match_data_url payload = Some (mime, body)
    /\ In font (fonts shown)
    /\ fileName font = file
    /\ size font = List.length (Buffer_from_base64 body)
    /\ format font = JS.sliceFrom (JS.toLowerCase (extname file)) 1
    /\ NoDup (map fileName (fonts shown)).
Proof.
  cbv zeta. intros Hwf Hname.
  destruct (uploadFont file payload w) as [r w'] eqn:Hup. cbn [fst snd]. intros ->.
  exact (get_after_uploadFont_run w w' file payload files Hwf Hname Hup).
Qed.

End UploadThenGet.

(** The format of a file with a supported extension, a dot before it, is
    one of the supported formats. *)
Lemma supported_format (file : string) :
  allowListed file = true ->
  In ("." ++ JS.sliceFrom (JS.toLowerCase (extname file)) 1)%string SUPPORTED_FORMATS.
Proof.
  unfold allowListed, JS.includes. intro H.
  apply existsb_exists in H as (ext & Hin & Heq). apply String.eqb_eq in Heq.
  rewrite Heq. clear Heq.
  cbn [SUPPORTED_FORMATS In] in Hin |- *.
  repeat (destruct Hin as [<-|Hin]; [vm_compute; tauto|]). contradiction.
Qed.

Section ReadModel.

Context {S : FontsService}.

(** What [get] sends is sound on every world, also when the listing broke
    off: each font is a regular file found at its path, the resolution of
    its file name against the storage root, with that byte length, a
    supported extension, one of the supported formats as its format, and the
    data URL that the cache holds for its name at that moment; [get] itself
    returns and touches neither the file system nor the cache. *)
Theorem get_sound (w : World S) :
  exists shown,
    fst (get w) = Ok shown
    /\ fs (snd (get w)) = fs w
    /\ cache (snd (get w)) = cache w
    /\ Forall (fun font =>
                 allowListed (fileName font) = true
                 /\ path font = pathResolve [fontRoot; fileName font] w
                 /\ (exists content,
                       FS.nodeAt (fs w) (path font) = Some (FS.File content)
                       /\ size font = List.length content)
                 /\ dataUrl font
                    = option_map FontInfo.dataUrl (getFontInfo (cache w) (name font))
                 /\ In ("." ++ format font)%string SUPPORTED_FORMATS)
         (fonts shown).
Proof.
  unfold get, bind, ret, listFonts.
  destruct (FS.readdir (fs w) (pathResolve [fontRoot] w)) as [files|err].
  - destruct (listFonts_for_sound w files []) as (added & Hadded & Hall).
    destruct (listFonts_for w files []) as [listed outcome]. cbn [fst app] in Hadded.
    subst listed. exists {| fonts := added |}.
    assert (Hfonts : Forall (fun font =>
                 allowListed (fileName font) = true
                 /\ path font = pathResolve [fontRoot; fileName font] w
                 /\ (exists content,
                       FS.nodeAt (fs w) (path font) = Some (FS.File content)
                       /\ size font = List.length content)
                 /\ dataUrl font
                    = option_map FontInfo.dataUrl (getFontInfo (cache w) (name font))
                 /\ In ("." ++ format font)%string SUPPORTED_FORMATS)
              added)
      by (revert Hall; apply Forall_impl;
          intros font (_ & Hallow & _ & Hpath & Hnode & Hurl & Hformat);
          rewrite Hformat; repeat split; try assumption; now apply supported_format).
    destruct outcome; cbn; auto.
  - exists {| fonts := [] |}. cbn. auto.
Qed.

Lemma deleteFont_removes_listed_font_run
  (w w' : World S) (shown : GlyphPayload) (font : GlyphFont) :
  fst (get w) = Ok shown ->
  In font (fonts shown) ->
  deleteFont (name font) w = (Ok tt, w') ->
  FS.nodeAt (fs w') (path font) = None.
Proof.
  intros Hget Hfont. rewrite deleteFont_run. cbv zeta.
  unfold get, bind, ret, listFonts in Hget.
  destruct (FS.readdir (fs w) (pathResolve [fontRoot] w)) as [files|err]; [|discriminate].
  destruct (listFonts_for_sound w files []) as (added & Hadded & Hall).
  destruct (listFonts_for w files []) as [listed outcome]. cbn [fst app] in Hadded.
  subst listed.
  assert (Hshown : shown = {| fonts := added |}) by (destruct outcome; cbn in Hget; congruence).
  subst shown. cbn [fonts] in Hfont.
  rewrite Forall_forall in Hall.
  destruct (Hall font Hfont) as (Hin & Hallow & Hname & Hpath & _).
  destruct (deleteFont_for (filter (matchesFont (name font)) files) w) as [[u|err] w1] eqn:Hrun;
    [|discriminate].
  intros [= -> <-].
  destruct (deleteFont_for_frame _ _ _ _ Hrun) as (_ & _ & _ & Hgone).
  rewrite Hpath. apply Hgone; [reflexivity|].
  apply filter_In. split; [assumption|].
  unfold matchesFont. apply andb_true_iff. split; [|exact Hallow].
  apply String.eqb_eq. now symmetry.
Qed.

(** Deleting a font under the name that [get] shows for it removes its
    file, however the extension is written. *)
Theorem deleteFont_removes_listed_font
  (w : World S) (shown : GlyphPayload) (font : GlyphFont) :
  fst (get w) = Ok shown ->
  In font (fonts shown) ->
  fst (deleteFont (name font) w) = Ok tt ->
  FS.nodeAt (fs (snd (deleteFont (name font) w))) (path font) = None.
Proof.
  intros Hget Hfont.
  destruct (deleteFont (name font) w) as [r w'] eqn:Hdel. cbn [fst snd]. intros ->.
  exact (deleteFont_removes_listed_font_run w w' shown font Hget Hfont Hdel).
Qed.

(** ... and keeps the file of every font shown under another name. *)
Theorem deleteFont_keeps_other_listed_fonts
  (w : World S) (shown : GlyphPayload) (font : GlyphFont) (fontName : string) :
  FS.wf (fs w) = true ->
  fst (get w) = Ok shown ->
  In font (fonts shown) ->
  name font <> fontName ->
  FS.nodeAt (fs (snd (deleteFont fontName w))) (path font) = FS.nodeAt (fs w) (path font).
Proof.
  intros Hwf Hget Hfont Hname.
  unfold get, bind, ret, listFonts in Hget.
  destruct (FS.readdir (fs w) (pathResolve [fontRoot] w)) as [files|err] eqn:Hread.
  - destruct (listFonts_for_sound w files []) as (added & Hadded & Hall).
    destruct (listFonts_for w files []) as [listed outcome]. cbn [fst app] in Hadded.
    subst listed.
    assert (Hshown : shown = {| fonts := added |})
      by (destruct outcome; cbn in Hget; congruence).
    subst shown. cbn [fonts] in Hfont.
    rewrite Forall_forall in Hall.
    destruct (Hall font Hfont) as (Hin & _ & Hbase & Hpath & _).
    destruct (readdir_wf _ _ _ Hwf Hread) as [_ Hnames].
    destruct (deleteFont_changes w fontName) as [_ Hq].
    destruct (Hq (path font)) as [H|(_ & files0 & f & Hread0 & Hf & _ & Hfname & Heq)];
      [assumption|].
    exfalso. rewrite Hread in Hread0. injection Hread0 as <-.
    rewrite Hpath in Heq. unfold pathResolve in Heq.
    rewrite !resolve_child in Heq by (apply Hnames; assumption).
    apply app_inj_tail in Heq as [_ Heq]. rewrite Heq in Hbase. congruence.
  - assert (shown = {| fonts := [] |}) by (cbn in Hget; congruence).
    subst shown. contradiction.
Qed.

Lemma uploadFont_loads_what_it_wrote_run (w w' : World S) (file payload : string) :
  uploadFont file payload w = (Ok tt, w') ->
  loadSingleFont (fs w') (pathResolve [fontRoot; file] w) (cache w) = Ok (cache w').
Proof.
  rewrite uploadFont_run. cbv zeta.
  destruct (JS.includes SUPPORTED_FORMATS (JS.toLowerCase (extname file)));
    [|discriminate].
  destruct (match_data_url payload) as [[mime body]|]; [|discriminate].
  destruct (FS.writeFile (fs w) (pathResolve [fontRoot; file] w) (Buffer_from_base64 body))
    as [fs'|err]; [|discriminate].
  cbn [negb].
  destruct (loadSingleFont fs' (pathResolve [fontRoot; file] w) (cache w)) as [c|err] eqn:E;
    [|discriminate].
  intros [= <-]. exact E.
Qed.

(** A successful [uploadFont] has loaded the file it wrote: the cache it
    leaves is what [loadSingleFont] made of the file system after the write. *)
Theorem uploadFont_loads_what_it_wrote (w : World S) (file payload : string) :
  fst (uploadFont file payload w) = Ok tt ->
  loadSingleFont (fs (snd (uploadFont file payload w))) (pathResolve [fontRoot; file] w)
    (cache w)
  = Ok (cache (snd (uploadFont file payload w))).
Proof.
  destruct (uploadFont file payload w) as [r w'] eqn:Hup. cbn [fst snd]. intros ->.
  exact (uploadFont_loads_what_it_wrote_run w w' file payload Hup).
Qed.

End ReadModel.

(** ** The bytes of an upload

    [Buffer.from(text, 'base64')] against the standard encoding. *)

Lemma forallb_below (P : N -> bool) (k : nat) :
  forallb P (map N.of_nat (seq 0 k)) = true ->
  forall n, (n < N.of_nat k)%N -> P n = true.
Proof.
  intros H n Hn. rewrite forallb_forall in H. apply H.
  apply in_map_iff. exists (N.to_nat n). split; [apply Nnat.N2Nat.id|].
  apply in_seq. lia.
Qed.

Lemma list_ind3 {A} (P : list A -> Prop) :
  P [] -> (forall x, P [x]) -> (forall x y, P [x; y]) ->
  (forall x y z l, P l -> P (x :: y :: z :: l)) ->
  forall l, P l.
Proof.
  intros H0 H1 H2 H3. fix IH 1.
  intros [|x [|y [|z l]]]; [exact H0|apply H1|apply H2|apply H3, IH].
Qed.

Lemma base64Char_sextet (n : N) :
  (n < 64)%N ->
  unbase64 (MemoryService.base64Char n) = Some n
  /\ N_of_ascii (MemoryService.base64Char n) <> 61%N
  /\ isLineTerminator (MemoryService.base64Char n) = false.
Proof.
  intro Hn.
  pose proof (forallb_below
    (fun n => match unbase64 (MemoryService.base64Char n) with
              | Some v => (v =? n)%N
              | None => false
              end
              && negb (N_of_ascii (MemoryService.base64Char n) =? 61)%N
              && negb (isLineTerminator (MemoryService.base64Char n)))
    64 eq_refl n Hn) as H.
  cbv beta in H. apply andb_true_iff in H as [H Hline]. apply andb_true_iff in H as [Hv Heq].
  apply negb_true_iff in Hline, Heq. apply N.eqb_neq in Heq.
  destruct (unbase64 (MemoryService.base64Char n)) as [v|]; [|discriminate].
  apply N.eqb_eq in Hv. subst v. auto.
Qed.

Lemma byteOf_to_N (n : N) (x : Byte.byte) :
  (n mod 256 = Byte.to_N x)%N -> byteOf n = x.
Proof. unfold byteOf. intros ->. now rewrite Byte.of_to_N. Qed.

(** The four sextets of three octets, and the octets back from them. *)
Lemma sextets_of_octets (a b : N) :
  (a < 256)%N -> (b < 256)%N ->
  let s2 := N.lor (N.shiftl (N.land a 3) 4) (N.shiftr b 4) in
  let s3 := N.lor (N.shiftl (N.land a 15) 2) (N.shiftr b 6) in
  (N.shiftr a 2 < 64 /\ s2 < 64 /\ s3 < 64 /\ N.land a 63 < 64
   /\ N.shiftl (N.land a 3) 4 < 64 /\ N.shiftl (N.land a 15) 2 < 64)%N
  /\ (N.lor (N.shiftl (N.shiftr a 2) 2) (N.shiftr s2 4) mod 256 = a
      /\ N.land s2 15 = N.shiftr b 4
      /\ N.shiftr s3 2 = N.land a 15
      /\ N.land s3 3 = N.shiftr b 6
      /\ N.lor (N.shiftl (N.shiftr a 4) 4) (N.land a 15) mod 256 = a
      /\ N.lor (N.shiftl (N.shiftr a 6) 6) (N.land a 63) mod 256 = a
      /\ N.lor (N.shiftl (N.shiftr a 2) 2) (N.shiftr (N.shiftl (N.land a 3) 4) 4) mod 256 = a
      /\ N.shiftr (N.shiftl (N.land a 15) 2) 2 = N.land a 15)%N.
Proof.
  intros Ha Hb.
  pose proof (forallb_below
    (fun a => forallb
       (fun b =>
          let s2 := N.lor (N.shiftl (N.land a 3) 4) (N.shiftr b 4) in
          let s3 := N.lor (N.shiftl (N.land a 15) 2) (N.shiftr b 6) in
          ((N.shiftr a 2 <? 64) && (s2 <? 64) && (s3 <? 64) && (N.land a 63 <? 64)
           && (N.shiftl (N.land a 3) 4 <? 64) && (N.shiftl (N.land a 15) 2 <? 64)
           && (N.lor (N.shiftl (N.shiftr a 2) 2) (N.shiftr s2 4) mod 256 =? a)
           && (N.land s2 15 =? N.shiftr b 4)
           && (N.shiftr s3 2 =? N.land a 15)
           && (N.land s3 3 =? N.shiftr b 6)
           && (N.lor (N.shiftl (N.shiftr a 4) 4) (N.land a 15) mod 256 =? a)
           && (N.lor (N.shiftl (N.shiftr a 6) 6) (N.land a 63) mod 256 =? a)
           && (N.lor (N.shiftl (N.shiftr a 2) 2) (N.shiftr (N.shiftl (N.land a 3) 4) 4)
                 mod 256 =? a)
           && (N.shiftr (N.shiftl (N.land a 15) 2) 2 =? N.land a 15))%N)
       (map N.of_nat (seq 0 256)))
    256 ltac:(vm_compute; reflexivity) a Ha) as H.
  cbv beta in H. pose proof (forallb_below _ 256 H b Hb) as H'. clear H.
  cbv beta zeta in H'.
  repeat (apply andb_true_iff in H' as [H' ?]).
  repeat match goal with
         | H : (_ <? _)%N = true |- _ => apply N.ltb_lt in H
         | H : (_ =? _)%N = true |- _ => apply N.eqb_eq in H
         end.
  cbv zeta. repeat split; assumption.
Qed.

Lemma sextets_base64Char (n : N) (s : string) :
  (n < 64)%N -> sextets (String (MemoryService.base64Char n) s) = n :: sextets s.
Proof.
  intro Hn. destruct (base64Char_sextet n Hn) as (Hv & Hpad & _).
  cbn [sextets]. apply N.eqb_neq in Hpad. now rewrite Hpad, Hv.
Qed.

Lemma sextets_pad (s : string) : sextets (String "=" s) = [].
Proof. reflexivity. Qed.

Lemma to_N_octet (x : Byte.byte) : (Byte.to_N x < 256)%N.
Proof. pose proof (Byte.to_N_bounded x). lia. Qed.

(** [Buffer.from(text, 'base64')] gives back the bytes of which [text] is
    the standard encoding, and the encoding has no line terminator. *)
Lemma decode_encode (l : list Byte.byte) :
  Buffer_from_base64 (MemoryService.encode l) = l
  /\ anyChar isLineTerminator (MemoryService.encode l) = false.
Proof.
  unfold Buffer_from_base64.
  induction l as [|x|x y|x y z l [IHbytes IHline]] using list_ind3.
  - split; reflexivity.
  - pose proof (to_N_octet x) as Hx.
    destruct (sextets_of_octets _ _ Hx Hx) as ((H1 & _ & _ & _ & H2 & _) & F). cbv zeta in F.
    destruct F as (_ & _ & _ & _ & _ & _ & Fa & _).
    cbn [MemoryService.encode].
    split.
    + rewrite !sextets_base64Char by assumption. rewrite sextets_pad.
      cbn [octets]. f_equal. now apply byteOf_to_N.
    + cbn [anyChar].
      rewrite (proj2 (proj2 (base64Char_sextet _ H1))), (proj2 (proj2 (base64Char_sextet _ H2))).
      reflexivity.
  - pose proof (to_N_octet x) as Hx. pose proof (to_N_octet y) as Hy.
    destruct (sextets_of_octets _ _ Hx Hy) as ((H1 & H2 & _) & F). cbv zeta in F.
    destruct F as (F1 & F2 & _).
    destruct (sextets_of_octets _ _ Hy Hy) as ((_ & _ & _ & _ & _ & H3) & G). cbv zeta in G.
    destruct G as (_ & _ & _ & _ & G1 & _ & _ & G2).
    cbn [MemoryService.encode].
    split.
    + rewrite !sextets_base64Char by assumption. rewrite sextets_pad.
      cbn [octets]. f_equal; [now apply byteOf_to_N|].
      f_equal. apply byteOf_to_N. now rewrite F2, G2.
    + cbn [anyChar].
      rewrite (proj2 (proj2 (base64Char_sextet _ H1))), (proj2 (proj2 (base64Char_sextet _ H2))),
        (proj2 (proj2 (base64Char_sextet _ H3))).
      reflexivity.
  - pose proof (to_N_octet x) as Hx. pose proof (to_N_octet y) as Hy.
    pose proof (to_N_octet z) as Hz.
    destruct (sextets_of_octets _ _ Hx Hy) as ((H1 & H2 & _) & F). cbv zeta in F.
    destruct F as (F1 & F2 & _).
    destruct (sextets_of_octets _ _ Hy Hz) as ((_ & _ & H3 & _) & G). cbv zeta in G.
    destruct G as (_ & _ & G1 & G2 & G3 & _).
    destruct (sextets_of_octets _ _ Hz Hz) as ((_ & _ & _ & H4 & _) & K). cbv zeta in K.
    destruct K as (_ & _ & _ & _ & _ & K1 & _).
    cbn [MemoryService.encode].
    split.
    + rewrite !sextets_base64Char by assumption.
      cbn [octets]. rewrite IHbytes.
      f_equal; [now apply byteOf_to_N|].
      f_equal; [apply byteOf_to_N; now rewrite F2, G1|].
      f_equal. apply byteOf_to_N. now rewrite G2.
    + cbn [anyChar].
      rewrite (proj2 (proj2 (base64Char_sextet _ H1))), (proj2 (proj2 (base64Char_sextet _ H2))),
        (proj2 (proj2 (base64Char_sextet _ H3))), (proj2 (proj2 (base64Char_sextet _ H4))).
      exact IHline.
Qed.

Section UploadBytes.

Context {S : FontsService}.

(** A successful [uploadFont] of the standard base64 encoding of some bytes,
    behind [data:], a media type and [;base64,], leaves exactly these bytes
    in the file at the resolved target. *)
Theorem uploadFont_stores_the_encoded_bytes
  (w : World S) (file mime : string) (bytes : list Byte.byte) :
  mime <> "" ->
  anyChar (Ascii.eqb ";") mime = false ->
  bytes <> [] ->
  fst (uploadFont file ("data:" ++ mime ++ ";base64," ++ MemoryService.encode bytes) w)
  = Ok tt ->
  FS.readFile
    (fs (snd (uploadFont file ("data:" ++ mime ++ ";base64," ++ MemoryService.encode bytes) w)))
    (pathResolve [fontRoot; file] w)
  = Some bytes.
Proof.
  intros Hmime Hsemi Hbytes.
  destruct (decode_encode bytes) as [Hdecode Hline].
  assert (Hpat : match_data_url ("data:" ++ mime ++ ";base64," ++ MemoryService.encode bytes)
                 = Some (mime, MemoryService.encode bytes)).
  { apply match_data_url_Some. repeat split; try assumption.
    destruct bytes as [|x [|y [|z l]]]; [congruence|discriminate..]. }
  rewrite uploadFont_run. cbv zeta. rewrite Hpat, Hdecode.
  destruct (negb (JS.includes SUPPORTED_FORMATS (JS.toLowerCase (extname file))));
    [discriminate|].
  destruct (FS.writeFile (fs w) (pathResolve [fontRoot; file] w) bytes)
    as [fs'|err] eqn:Hwrite; [|discriminate].
  destruct (loadSingleFont fs' _ (cache w)); [|discriminate].
  intros _. cbn. now destruct (writeFile_Ok _ _ _ _ Hwrite) as (Hread & _).
Qed.

End UploadBytes.

(** ** These theorems at work on the examples *)

Lemma listFonts_stops_at_first_stat_failure_at_example :
  let w := Examples.unstatable in
  exists fonts,
    listFonts w =
    (Ok fonts, {| fs := fs w; cache := cache w;
                  log := log w ++ [{| level := LError; message := MsgReadFontDirFailed;
                                      cause := Some (IOError EACCES Sstat
                                                       (Examples.inFonts "broken.otf")) |}] |})
    /\ map fileName fonts =
       filter (fun f => allowListed f
                        && FS.isRegularFile (fs w)
                             (pathResolve [@fontRoot Examples.svc] w ++ [f])) ["arial.ttf"].
Proof.
  apply (listFonts_stops_at_first_stat_failure Examples.unstatable
           ["arial.ttf"] "broken.otf" ["arial.woff"]
           (IOError EACCES Sstat (Examples.inFonts "broken.otf"))).
  - vm_compute. reflexivity.
  - vm_compute. reflexivity.
  - intros f H. for_each_member H ltac:(vm_compute; reflexivity).
  - vm_compute. reflexivity.
  - vm_compute. reflexivity.
Defined.

Lemma get_after_deleteFont_at_example :
  exists payload,
    fst (get (snd (deleteFont "arial" Examples.mixed))) = Ok payload
    /\ Forall (fun font => name font <> "arial") (fonts payload).
Proof.
  apply (get_after_deleteFont Examples.mixed "arial").
  vm_compute. reflexivity.
Defined.

Lemma loadFontOnDemand_after_deleteFont_at_example :
  fst (loadFontOnDemand "arial" (snd (deleteFont "arial" Examples.cached)))
  = Ok (Some "data:font/ttf;base64,QUJD")
  /\ FS.nodeAt (fs (snd (deleteFont "arial" Examples.cached))) (Examples.inFonts "arial.ttf")
     = None.
Proof.
  split.
  - apply (loadFontOnDemand_after_deleteFont Examples.cached "arial"
             {| FontInfo.dataUrl := "data:font/ttf;base64,QUJD" |}).
    + reflexivity.
    + discriminate.
  - vm_compute. reflexivity.
Defined.

Lemma deleteFont_unknown_name_at_example :
  deleteFont "helvetica" Examples.mixed = (Ok tt, Examples.mixed).
Proof.
  apply (deleteFont_unknown_name Examples.mixed "helvetica"
           ["arial.ttf"; "icons.svg"; "notes.txt"; "arial.woff"; "Arial.TTF"]).
  - vm_compute. reflexivity.
  - intros f H _. for_each_member H ltac:(vm_compute; discriminate).
Defined.

Lemma loadFontOnDemand_loads_first_match_at_example :
  fst (loadFontOnDemand "arial" Examples.mixed) = Ok (Some "data:font/ttf;base64,QUJD")
  /\ cache (snd (loadFontOnDemand "arial" Examples.mixed))
     = [("arial", {| FontInfo.dataUrl := "data:font/ttf;base64,QUJD" |})].
Proof.
  apply (loadFontOnDemand_loads_first_match Examples.mixed "arial"
           [] "arial.ttf" ["icons.svg"; "notes.txt"; "arial.woff"; "Arial.TTF"]).
  - vm_compute. reflexivity.
  - vm_compute. reflexivity.
  - intros f [].
  - vm_compute. reflexivity.
Defined.

Lemma uploadFont_write_failure_at_example :
  let err := IOError EISDIR Sopen (Examples.inFonts "icons.svg") in
  let run := uploadFont "icons.svg" "data:image/svg+xml;base64,QUJD" Examples.mixed in
  fst run = Throw err
  /\ cache (snd run) = cache Examples.mixed
  /\ log (snd run)
     = log Examples.mixed
       ++ [{| level := LError; message := MsgUploadFailed "icons.svg"; cause := Some err |}].
Proof.
  apply (uploadFont_write_failure Examples.mixed "icons.svg"
           "data:image/svg+xml;base64,QUJD" "image/svg+xml" "QUJD"
           (IOError EISDIR Sopen (Examples.inFonts "icons.svg")));
    vm_compute; reflexivity.
Defined.

Lemma get_after_uploadFont_at_example :
  let w' := snd (uploadFont "noto.otf" "data:font/otf;base64,QUJD" Examples.stale) in
  exists shown mime body font,
    fst (get w') = Ok shown
    /\ match_data_url "data:font/otf;base64,QUJD" = Some (mime, body)
    /\ In font (fonts shown)
    /\ fileName font = "noto.otf"
    /\ size font = List.length (Buffer_from_base64 body)
    /\ format font = JS.sliceFrom (JS.toLowerCase (extname "noto.otf")) 1
    /\ NoDup (map fileName (fonts shown)).
Proof.
  apply (get_after_uploadFont Examples.stale
           "noto.otf" "data:font/otf;base64,QUJD" ["noto.otf"]).
  - vm_compute. reflexivity.
  - vm_compute. reflexivity.
  - vm_compute. reflexivity.
  - vm_compute. reflexivity.
  - intros f H. for_each_member H ltac:(vm_compute; reflexivity).
Defined.

Lemma deleteFont_removes_listed_font_at_example :
  FS.nodeAt (fs (snd (deleteFont "Arial.TTF" Examples.upperOnly)))
    (Examples.inFonts "Arial.TTF") = None.
Proof.
  apply (deleteFont_removes_listed_font Examples.upperOnly
           {| fonts := [{| name := "Arial.TTF"; fileName := "Arial.TTF"; format := "ttf";
                           size := 3; path := Examples.inFonts "Arial.TTF";
                           dataUrl := None |}] |}
           {| name := "Arial.TTF"; fileName := "Arial.TTF"; format := "ttf";
              size := 3; path := Examples.inFonts "Arial.TTF"; dataUrl := None |}).
  - vm_compute. reflexivity.
  - left. reflexivity.
  - vm_compute. reflexivity.
Defined.

Lemma deleteFont_keeps_other_listed_fonts_at_example :
  FS.nodeAt (fs (snd (deleteFont "arial" Examples.mixed))) (Examples.inFonts "Arial.TTF")
  = FS.nodeAt (fs Examples.mixed) (Examples.inFonts "Arial.TTF").
Proof.
  apply (deleteFont_keeps_other_listed_fonts Examples.mixed
           {| fonts :=
                [{| name := "arial"; fileName := "arial.ttf"; format := "ttf"; size := 3;
                    path := Examples.inFonts "arial.ttf"; dataUrl := None |};
                 {| name := "arial"; fileName := "arial.woff"; format := "woff"; size := 2;
                    path := Examples.inFonts "arial.woff"; dataUrl := None |};
                 {| name := "Arial.TTF"; fileName := "Arial.TTF"; format := "ttf"; size := 0;
                    path := Examples.inFonts "Arial.TTF"; dataUrl := None |}] |}
           {| name := "Arial.TTF"; fileName := "Arial.TTF"; format := "ttf"; size := 0;
              path := Examples.inFonts "Arial.TTF"; dataUrl := None |} "arial").
  - vm_compute. reflexivity.
  - vm_compute. reflexivity.
  - right. right. left. reflexivity.
  - discriminate.
Defined.

Lemma uploadFont_loads_what_it_wrote_at_example :
  let w' := snd (uploadFont "noto.otf" "data:font/otf;base64,QUJD" Examples.empty) in
  loadSingleFont (fs w') (pathResolve [@fontRoot Examples.svc; "noto.otf"] Examples.empty)
    (cache Examples.empty)
  = Ok (cache w').
Proof.
  apply (uploadFont_loads_what_it_wrote Examples.empty
           "noto.otf" "data:font/otf;base64,QUJD").
  vm_compute. reflexivity.
Defined.

Lemma uploadFont_stores_the_encoded_bytes_at_example :
  MemoryService.encode Examples.ABC = "QUJD"
  /\ FS.readFile (fs (snd (uploadFont "noto.otf" "data:font/otf;base64,QUJD" Examples.stale)))
       (Examples.inFonts "noto.otf")
     = Some [Byte.x41; Byte.x42; Byte.x43].
Proof.
  split; [reflexivity|].
  apply (uploadFont_stores_the_encoded_bytes Examples.stale "noto.otf" "font/otf" Examples.ABC).
  - discriminate.
  - reflexivity.
  - discriminate.
  - vm_compute. reflexivity.
Defined.
